(** * webscrapp.py: adapter orchestration and resilient fetch

    A shallow embedding of [src/webscrapp.py]: the retrying fetch primitive
    [get], the adapters and their registry [ADAPTERS], the runners [run_one]
    and [run_all], the CSV sink [write_csv] and the command line [main].

    Python values are modelled as the program has them: [str] as [string]
    (a sequence of bytes, the UTF-8 encoding of the text), [Optional[T]] as
    [option T], exceptions as values of [exn] carried by the error side of
    the monads, generators as computations that also collect what they
    yield, and the process-wide objects (the HTTP session, the clock, the
    logger, standard output, the file system) as fields of one explicit
    [State] threaded through every call. *)

From Stdlib Require Import ZArith QArith Ascii String List Lia Bool.
From stdpp Require Import base tactics option list strings gmap sorting pretty.

Open Scope string_scope.
Open Scope Z_scope.
Open Scope list_scope.

(** ** Exceptions *)

(** The exception classes the program raises, catches or lets through.
    [RequestException] stands for [requests.RequestException] and its
    subclasses (connection errors, time-outs), [RetryError] for
    [tenacity.RetryError], which wraps the outcome of the last attempt,
    [OSError] for the errors of [os] and [open], [OtherException] for any
    other class derived from [Exception].  [SystemExit] and
    [KeyboardInterrupt] derive from [BaseException] only. *)
Inductive exn : Type :=
| RequestException (msg : string)
| ScrapeError (msg : string)
| RetryError (last : exn)
| OSError (errname : string) (msg : string)
| TypeError (msg : string)
| AttributeError (msg : string)
| OtherException (msg : string)
| SystemExit (msg : string)
| KeyboardInterrupt.

(** [isinstance(e, Exception)]: what an [except Exception] clause catches. *)
Definition is_Exception (e : exn) : bool :=
  match e with
  | SystemExit _ | KeyboardInterrupt => false
  | _ => true
  end.

(** [str(e)], as interpolated by the f-string of [run_all].  For a
    [RetryError] Python prints the wrapped future; the model prints the
    wrapped exception. *)
Fixpoint exn_str (e : exn) : string :=
  match e with
  | RequestException m | ScrapeError m | TypeError m
  | AttributeError m | OtherException m | SystemExit m => m
  | OSError n m => n +:+ ": " +:+ m
  | RetryError last => "RetryError[" +:+ exn_str last +:+ "]"
  | KeyboardInterrupt => ""
  end.

(** ** Data model *)

Record Course : Type := mkCourse {
  course_id : string;
  course_title : string;
  url : string;
  is_paid : option bool;
  price : option string;
  num_subscribers : option Z;
  num_reviews : option Z;
  num_lectures : option Z;
  level : option string;
  content_duration : option string;
  published_timestamp : option string;
  subject : option string;
  provider : option string;
  language : option string
}.

(** [Course(course_id=.., course_title=.., url=.., provider=..)]: the
    remaining fields take their dataclass default [None]. *)
Definition Course_ (cid title u : string) (prov : string) : Course :=
  mkCourse cid title u None None None None None None None None None (Some prov) None.

(** ** The outside world *)

(** What [SESSION.get(url, timeout=30)] hands back: a response, of which
    the program reads [status_code] and [text], or a raised exception. *)
Record Response : Type := mkResponse { status_code : Z; text : string }.

Inductive transport_result : Type :=
| Responds (r : Response)
| Raises (e : exn).

(** Files and directories, keyed by the path string as given. *)
Record FS : Type := mkFS {
  dirs : gset string;
  files : gmap string string
}.

Record State : Type := mkState {
  requests : list string;   (* URLs passed to SESSION.get, oldest first *)
  sleeps : list Z;          (* seconds waited by the retry decorator *)
  warnings : list string;   (* lines given to logging.warning *)
  stdout : list string;     (* lines printed *)
  fs : FS
}.

Definition initial_state : State :=
  mkState [] [] [] [] (mkFS ∅ ∅).

(** ** The monad of plain calls: state and exceptions *)

Definition M (A : Type) : Type := State → (exn + A) * State.

Definition ret {A} (a : A) : M A := λ s, (inr a, s).
Definition raise {A} (e : exn) : M A := λ s, (inl e, s).
Definition bind {A B} (m : M A) (k : A → M B) : M B :=
  λ s, match m s with
       | (inr a, s1) => k a s1
       | (inl e, s1) => (inl e, s1)
       end.

Global Instance M_ret : MRet M := @ret.
Global Instance M_bind : MBind M := λ A B k m, bind m k.

(** [try: m  except Exception as e: ...]: an exception derived from
    [Exception] is handed to the handler, any other one escapes. *)
Definition try_except {A} (m : M A) (handler : exn → M A) : M A :=
  λ s, match m s with
       | (inr a, s1) => (inr a, s1)
       | (inl e, s1) => if is_Exception e then handler e s1 else (inl e, s1)
       end.

Definition time_sleep (secs : Z) : M unit :=
  λ s, (inr tt, mkState (requests s) (sleeps s ++ [secs]) (warnings s) (stdout s) (fs s)).
Definition logging_warning (line : string) : M unit :=
  λ s, (inr tt, mkState (requests s) (sleeps s) (warnings s ++ [line]) (stdout s) (fs s)).
Definition print (line : string) : M unit :=
  λ s, (inr tt, mkState (requests s) (sleeps s) (warnings s) (stdout s ++ [line]) (fs s)).

(** ** tenacity *)

Module tenacity.

(** [stop_after_attempt(n)]: stop once [attempt_number >= n]. *)
Definition stop_after_attempt (max_attempt_number attempt_number : nat) : bool :=
  (max_attempt_number <=? attempt_number)%nat.

(** [wait_exponential(multiplier, min, max)], called after the failed
    attempt [attempt_number]:
    [max(max(0, min), min(multiplier * 2 ** (attempt_number - 1), max))]. *)
Definition wait_exponential (multiplier min max : Z) (attempt_number : nat) : Z :=
  Z.max (Z.max 0 min)
        (Z.min (multiplier * 2 ^ (Z.of_nat attempt_number - 1)) max).

Section retrying.
Context {A : Type}.
Variable retry : exn → bool.    (* the retry= predicate *)
Variable wait : nat → Z.        (* the wait= strategy *)

(** [Retrying.__call__] under [stop_after_attempt]: call [fn]; a result
    is returned; an exception the predicate rejects is re-raised as it
    is; otherwise, when the stop rule holds, [RetryError] is raised,
    and else the decorator sleeps [wait attempt_number] and starts
    attempt [attempt_number + 1].  The loop is unfolded along [left],
    the number of attempts the stop rule still allows after this one
    (see [left_stop]). *)
Fixpoint attempts (left attempt_number : nat) (fn : M A) : M A :=
  λ s, match fn s with
       | (inr r, s1) => (inr r, s1)
       | (inl e, s1) =>
           if retry e then
             match left with
             | O => (inl (RetryError e), s1)
             | S left' =>
                 attempts left' (S attempt_number) fn
                          (snd (time_sleep (wait attempt_number) s1))
             end
           else (inl e, s1)
       end.

(** [@retry(stop=stop_after_attempt(n), wait=.., retry=..)]. *)
Definition retry_decorator (max_attempt_number : nat) (fn : M A) : M A :=
  attempts (max_attempt_number - 1) 1 fn.
End retrying.

(** [retry_if_exception_type((requests.RequestException, ScrapeError))]. *)
Definition retry_if_exception_type (e : exn) : bool :=
  match e with
  | RequestException _ | ScrapeError _ => true
  | _ => false
  end.

End tenacity.

(** ** External collaborators *)

(** An element matched by a BeautifulSoup query: what [tag.get("href")]
    and [tag.get_text(strip=True)] return for it. *)
Record Tag : Type := mkTag { tag_href : option string; tag_text : string }.

(** The libraries the program calls but does not define: the HTTP
    transport behind [SESSION] (its answer may depend on the URL and on
    every request made before), the queries of BeautifulSoup on a parsed
    page (a page is identified with its markup), and [re.search] with the
    flag [re.I]. *)
Class Collaborators : Type := {
  transport : list string → string → transport_result;
  soup_select : string → string → list Tag;          (* soup.select(css) *)
  soup_select_one : string → string → option Tag;    (* soup.select_one(css) *)
  soup_find : string → list string → option Tag;     (* soup.find([names]) *)
  re_search_I : string → string → bool               (* re.search(pat, s, re.I) *)
}.

(** ** The fetch primitive *)

Section Fetch.
Context `{Collaborators}.

Definition SESSION_get (u : string) : M Response :=
  λ s, let s1 := mkState (requests s ++ [u]) (sleeps s) (warnings s) (stdout s) (fs s) in
       match transport (requests s) u with
       | Responds r => (inr r, s1)
       | Raises e => (inl e, s1)
       end.

(** The body of [get], one attempt. *)
Definition get_body (u : string) : M Response :=
  resp ← SESSION_get u;
  if 400 <=? status_code resp
  then raise (ScrapeError ("GET " +:+ u +:+ " -> " +:+ pretty (status_code resp)))
  else mret resp.

Definition get (u : string) : M Response :=
  tenacity.retry_decorator tenacity.retry_if_exception_type
    (tenacity.wait_exponential 1 1 8) 3 (get_body u).

End Fetch.

(** ** Generators *)

(** A generator function run to its end: the Courses it yields, in order,
    and how it ends (its return value, or the exception that escapes it),
    with the state its calls leave behind.  [list(g)] is the only consumer
    in the program, so nothing happens between two yields. *)
Definition G (A : Type) : Type := State → (list Course * (exn + A)) * State.

Definition gret {A} (a : A) : G A := λ s, (([], inr a), s).
Definition gbind {A B} (g : G A) (k : A → G B) : G B :=
  λ s, match g s with
       | ((ys, inr a), s1) =>
           match k a s1 with
           | ((ys', r), s2) => ((ys ++ ys', r), s2)
           end
       | ((ys, inl e), s1) => ((ys, inl e), s1)
       end.
Global Instance G_ret : MRet G := @gret.
Global Instance G_bind : MBind G := λ A B k g, gbind g k.

Definition yield (c : Course) : G unit := λ s, (([c], inr tt), s).

(** A plain call made inside a generator body. *)
Definition call {A} (m : M A) : G A :=
  λ s, match m s with (r, s1) => (([], r), s1) end.

(** [try: x = m  except Exception: ...] around a plain call, the result
    handed on as a sum so that the handler can [continue] or [return]. *)
Definition attempt {A} (m : M A) : G (exn + A) :=
  call (try_except (a ← m; mret (inr a)) (λ e, mret (inl e))).

(** [for x in xs: body x]; [continue] is the body returning early. *)
Fixpoint for_each {X} (xs : list X) (body : X → G unit) : G unit :=
  match xs with
  | [] => mret tt
  | x :: xs' => body x;; for_each xs' body
  end.

(** A [for] loop whose body updates a local variable of the function. *)
Fixpoint for_each_with {X L} (xs : list X) (body : X → L → G L) (l : L) : G L :=
  match xs with
  | [] => mret l
  | x :: xs' => l1 ← body x l; for_each_with xs' body l1
  end.

(** [list(g)]: the yielded items when [g] ends normally, else the
    exception (the items collected so far are dropped with it). *)
Definition to_list {A} (g : G A) : M (list Course) :=
  λ s, match g s with
       | ((ys, inr _), s1) => (inr ys, s1)
       | ((_, inl e), s1) => (inl e, s1)
       end.

(** The Courses a generator hands out from state [s], whether or not it
    ends normally. *)
Definition yielded {A} (g : G A) (s : State) : list Course := (g s).1.1.

(** Every Course a generator hands out satisfies [P], from any state and
    however the generator ends. *)
Definition all_yielded {A} (P : Course → Prop) (g : G A) : Prop :=
  ∀ s, Forall P (yielded g s).

(** ** Strings as Python uses them here *)

(** [sub in s]. *)
Fixpoint str_in (sub s : string) : bool :=
  String.prefix sub s ||
  match s with
  | EmptyString => false
  | String _ s' => str_in sub s'
  end.

(** [href.startswith("/")]. *)
Definition startswith (s p : string) : bool := String.prefix p s.

(** [a or b] on strings: the empty string is false. *)
Definition str_or (a b : string) : string :=
  match a with EmptyString => b | _ => a end.

(** [if href.startswith("/"): href = self.base_url + href]. *)
Definition resolve (base href : string) : string :=
  if startswith href "/" then base +:+ href else href.

(** [a < b] on strings: the order [sorted] uses. *)
Definition str_lt (a b : string) : Prop := String.ltb a b = true.

(** ** Adapters *)

Record Adapter : Type := mkAdapter {
  key : string;
  display_name : string;
  base_url : option string;
  requires_js : bool;
  is_allowed : M bool;
  iter_courses : G unit
}.

Section Adapters.
Context `{Collaborators}.

(** [BaseAdapter.soup]: the page is parsed only when [get] returned. *)
Definition soup (u : string) : M string :=
  resp ← get u; mret (text resp).

Definition BaseAdapter_is_allowed : M bool := mret true.
Definition BaseAdapter_iter_courses : G unit := mret tt.

Definition BaseAdapter : Adapter :=
  mkAdapter "base" "Base" None false BaseAdapter_is_allowed BaseAdapter_iter_courses.

(** The loop body shared, statement for statement, by the adapters that
    scan the anchors of one page: skip an empty href, resolve a relative
    one, keep it when [keep] holds, and yield a Course titled by the
    anchor text or else the link.  [keep] and [mk] are the adapter's own
    condition and constructor call. *)
Definition anchor_body (base : string) (keep : string → bool)
    (mk : string → string → Course) (a : Tag) : G unit :=
  match tag_href a with
  | None | Some EmptyString => mret tt
  | Some href =>
      let href := resolve base href in
      if keep href then
        let title := str_or (tag_text a) href in
        yield (mk href title)
      else mret tt
  end.

(** 1) Learning.gov.et *)

(** [sorted(links)] on the set of hrefs: a [None] next to a string makes
    the comparison raise [TypeError]; strings sort by code point. *)
Definition sorted_links (links : gset (option string)) : exn + list (option string) :=
  if bool_decide (None ∈ links) then
    if bool_decide (size links = 1%nat) then inr [None]
    else inl (TypeError "'<' not supported between instances of 'NoneType' and 'str'")
  else inr (Some <$> merge_sort String.le (omap id (elements links))).

(** The body of the loop over the sorted links. *)
Definition LearningGov_visit (base_url display_name : string)
    (href : option string) : G unit :=
  match href with
  | None | Some EmptyString => mret tt
  | Some href =>
      let href := resolve base_url href in
      if re_search_I "course|training|program|module" href then
        r ← attempt (soup href);
        match r with
        | inl _ => mret tt
        | inr csoup =>
            let title :=
              match soup_find csoup ["h1"; "h2"; "title"] with
              | Some el => tag_text el
              | None => href
              end in
            yield (Course_ href title href display_name)
        end
      else mret tt
  end.

Definition LearningGovAdapter : Adapter :=
  let display_name := "Learning.gov.et" in
  let base_url := "https://learning.gov.et" in
  mkAdapter "learninggov" display_name (Some base_url) false BaseAdapter_is_allowed
    (let homepage := base_url in
     soup_ ← call (soup homepage);
     let links : gset (option string) :=
       list_to_set (tag_href <$> soup_select soup_ "a[href]") in
     match sorted_links links with
     | inl e => call (raise e)
     | inr hrefs => for_each hrefs (LearningGov_visit base_url display_name)
     end).

(** 2) LearnEthiopia.com *)
Definition LearnEthiopiaAdapter : Adapter :=
  let display_name := "LearnEthiopia.com" in
  let base_url := "https://learnethiopia.com" in
  mkAdapter "learnethiopia" display_name (Some base_url) false BaseAdapter_is_allowed
    (let catalog_urls := [base_url; base_url +:+ "/courses"] in
     for_each_with catalog_urls (λ u (seen : gset string),
       r ← attempt (soup u);
       match r with
       | inl _ => mret seen
       | inr soup_ =>
           for_each_with (soup_select soup_ "a[href]") (λ a (seen : gset string),
             match tag_href a with
             | None | Some EmptyString => mret seen
             | Some href =>
                 let href := resolve base_url href in
                 if negb (str_in base_url href) || bool_decide (href ∈ seen)
                 then mret seen
                 else if re_search_I "/course/|/courses/|/program/" href then
                   let seen := {[ href ]} ∪ seen in
                   r ← attempt (soup href);
                   let title :=
                     match r with
                     | inr csoup =>
                         match soup_select_one csoup "h1, h2.page-title, .course-title" with
                         | Some title_el => tag_text title_el
                         | None => str_or (tag_text a) href
                         end
                     | inl _ => str_or (tag_text a) href
                     end in
                   yield (Course_ href title href display_name);;
                   mret seen
                 else mret seen
             end) seen
       end) ∅;;
     mret tt).

(** Adapters 3 to 8 and 10 to 17 scan the anchors of their base page.
    [guarded] says whether the fetch of the base page sits in
    [try: ... except Exception: return []]. *)
Definition scan_base_page (guarded : bool) (base : string)
    (keep : string → bool) (mk : string → string → Course) : G unit :=
  if guarded then
    r ← attempt (soup base);
    match r with
    | inl _ => mret tt
    | inr soup_ => for_each (soup_select soup_ "a[href]") (anchor_body base keep mk)
    end
  else
    soup_ ← call (soup base);
    for_each (soup_select soup_ "a[href]") (anchor_body base keep mk).

(** 3) EDUHUB Technology Solutions *)
Definition EduHubAdapter : Adapter :=
  let display_name := "EDUHUB Technology Solutions" in
  let base_url := "https://eduhubplc.com" in
  mkAdapter "eduhubplc" display_name (Some base_url) false BaseAdapter_is_allowed
    (scan_base_page false base_url
       (λ href, str_in base_url href && re_search_I "course|training|solution|product" href)
       (λ href title, Course_ href title href display_name)).

(** 4) ALX Africa *)
Definition ALXAdapter : Adapter :=
  let display_name := "ALX Africa" in
  let base_url := "https://www.alxafrica.com" in
  mkAdapter "alx" display_name (Some base_url) false BaseAdapter_is_allowed
    (scan_base_page false base_url
       (λ href, re_search_I "program|course|software|data|cloud|ai" href && str_in base_url href)
       (λ href title, Course_ href title href display_name)).

(** 5) SmartEthio *)
Definition SmartEthioAdapter : Adapter :=
  let display_name := "SmartEthio" in
  let base_url := "https://smartethio.com" in
  mkAdapter "smartethio" display_name (Some base_url) false BaseAdapter_is_allowed
    (scan_base_page true base_url
       (λ href, str_in base_url href && re_search_I "grade|subject|course|lesson|exam" href)
       (λ href title,
          mkCourse href title href None None None None None None None None
                   (Some "K12") (Some display_name) None)).

(** 6) Afriwork *)
Definition AfriworkAdapter : Adapter :=
  let display_name := "Afriwork" in
  let base_url := "https://afriwork.com" in
  mkAdapter "afriwork" display_name (Some base_url) false BaseAdapter_is_allowed
    (scan_base_page true base_url
       (λ href, str_in base_url href && re_search_I "learn|academy|blog|training|skills" href)
       (λ href title, Course_ href title href display_name)).

(** 7) Kubaya Learning *)
Definition KubayaAdapter : Adapter :=
  let display_name := "Kubaya Learning" in
  let base_url := "https://kubayalearning.com" in
  mkAdapter "kubaya" display_name (Some base_url) false BaseAdapter_is_allowed
    (scan_base_page false base_url
       (λ href, str_in base_url href && re_search_I "course|lesson|learn|levels|amharic" href)
       (λ href title,
          mkCourse href title href None None None None None None None None
                   None (Some display_name) (Some "Amharic"))).

(** 8) Stafford Global *)
Definition StaffordAdapter : Adapter :=
  let display_name := "Stafford Global" in
  let base_url := "https://www.staffordglobal.org" in
  mkAdapter "staffordglobal" display_name (Some base_url) false BaseAdapter_is_allowed
    (scan_base_page false base_url
       (λ href, str_in base_url href && re_search_I "program|course|mba|msc|pgce|degree" href)
       (λ href title, Course_ href title href display_name)).

(** 9) eLearn Ethiopia *)
Definition ELearnETHAdapter : Adapter :=
  let display_name := "eLearn Ethiopia" in
  let base_url := "https://elearnethiopia.example" in
  mkAdapter "elearneth" display_name (Some base_url) false BaseAdapter_is_allowed
    (let index_urls := [base_url +:+ "/course/index.php"; base_url] in
     for_each index_urls (λ u,
       r ← attempt (soup u);
       match r with
       | inl _ => mret tt
       | inr soup_ =>
           for_each
             (soup_select soup_ ".coursebox a[href], .course-title a[href], a.coursename")
             (anchor_body base_url (λ _, true)
                (λ href title, Course_ href title href display_name))
       end)).

(** 10) AAU e-Learning *)
Definition AAUAdapter : Adapter :=
  let display_name := "AAU e-Learning" in
  let base_url := "https://elearning.aau.edu.et" in
  mkAdapter "aau" display_name (Some base_url) false BaseAdapter_is_allowed
    (scan_base_page true base_url
       (λ href, re_search_I "course|program|catalog|category" href && str_in base_url href)
       (λ href title, Course_ href title href display_name)).

(** 11) AAU‑eLearnAfrica LMS *)
Definition AAUElearnAfricaAdapter : Adapter :=
  let display_name := "AAU‑eLearnAfrica LMS" in
  let base_url := "https://elearnafrica.example" in
  mkAdapter "aau_elearnafrica" display_name (Some base_url) false BaseAdapter_is_allowed
    (scan_base_page true base_url
       (λ href, re_search_I "course|program|catalog|category" href && str_in base_url href)
       (λ href title, Course_ href title href display_name)).

(** 12) St. Mary’s University Distance Education *)
Definition StMarysAdapter : Adapter :=
  let display_name := "St. Mary’s University Distance Education" in
  let base_url := "https://smuc.edu.et" in
  mkAdapter "stmarys" display_name (Some base_url) false BaseAdapter_is_allowed
    (scan_base_page true base_url
       (λ href, re_search_I "distance|program|course|degree" href && str_in base_url href)
       (λ href title, Course_ href title href display_name)).

(** 13) International Leadership Institute *)
Definition ILIAdapter : Adapter :=
  let display_name := "International Leadership Institute" in
  let base_url := "https://ili.edu.et" in
  mkAdapter "ili" display_name (Some base_url) false BaseAdapter_is_allowed
    (scan_base_page true base_url
       (λ href, re_search_I "program|course|diploma|degree|certificate" href && str_in base_url href)
       (λ href title, Course_ href title href display_name)).

(** 14) Infonet College *)
Definition InfonetAdapter : Adapter :=
  let display_name := "Infonet College" in
  let base_url := "https://infonetcollege.example" in
  mkAdapter "infonet" display_name (Some base_url) false BaseAdapter_is_allowed
    (scan_base_page true base_url
       (λ href, re_search_I "short-course|training|program|course" href && str_in base_url href)
       (λ href title, Course_ href title href display_name)).

(** 15) Microlink IT College *)
Definition MicrolinkAdapter : Adapter :=
  let display_name := "Microlink IT College" in
  let base_url := "https://microlinkcolleges.net" in
  mkAdapter "microlink" display_name (Some base_url) false BaseAdapter_is_allowed
    (scan_base_page true base_url
       (λ href, re_search_I "cisco|ict|program|course|training" href && str_in base_url href)
       (λ href title, Course_ href title href display_name)).

(** 16) Ennlite Academy *)
Definition EnnliteAdapter : Adapter :=
  let display_name := "Ennlite Academy" in
  let base_url := "https://ennlite.example" in
  mkAdapter "ennlite" display_name (Some base_url) false BaseAdapter_is_allowed
    (scan_base_page true base_url
       (λ href, re_search_I "course|training|graphic|marketing|web|app" href && str_in base_url href)
       (λ href title, Course_ href title href display_name)).

(** 17) GxCamp *)
Definition GxCampAdapter : Adapter :=
  let display_name := "GxCamp" in
  let base_url := "https://gxcamp.example" in
  mkAdapter "gxcamp" display_name (Some base_url) false BaseAdapter_is_allowed
    (scan_base_page true base_url
       (λ href, re_search_I "course|ict|english|web|amharic" href && str_in base_url href)
       (λ href title, Course_ href title href display_name)).

(** 18) LearnUp Ethiopia: [iter_courses] returns the empty list. *)
Definition LearnUpAdapter : Adapter :=
  mkAdapter "learnup" "LearnUp Ethiopia" (Some "https://learnup.example") false BaseAdapter_is_allowed (mret tt).

(** 19) 5 Million Ethiopian Coders: [iter_courses] returns the empty list. *)
Definition FiveMillionCodersAdapter : Adapter :=
  mkAdapter "5mec" "5 Million Ethiopian Coders" (Some "https://5millioncoders.example") false BaseAdapter_is_allowed (mret tt).

(** 20) Hagerly: [iter_courses] returns the empty list. *)
Definition HagerlyAdapter : Adapter :=
  mkAdapter "hagerly" "Hagerly" (Some "https://hagerly.example") false BaseAdapter_is_allowed (mret tt).

(** 21) Haleta App: [iter_courses] returns the empty list. *)
Definition HaletaAdapter : Adapter :=
  mkAdapter "haleta" "Haleta App" (Some "https://haleta.example") false BaseAdapter_is_allowed (mret tt).

(** 22) Zemen Technologies: [iter_courses] returns the empty list. *)
Definition ZemenTechAdapter : Adapter :=
  mkAdapter "zementechnologies" "Zemen Technologies" (Some "https://zemen-technology.example") false BaseAdapter_is_allowed (mret tt).

End Adapters.

(** Every Course the adapter yields names it as provider and has a
    location. *)
Definition stamped (a : Adapter) : Prop :=
  all_yielded (λ r, provider r = Some (display_name a) ∧ url r ≠ "")
              (iter_courses a).

(** ** The registry *)

(** [ADAPTERS: Dict[str, BaseAdapter]]: a dict keeps insertion order, and
    assigning to a key already present replaces the value in place. *)
Definition Registry : Type := list (string * Adapter).

Fixpoint dict_set (k : string) (a : Adapter) (d : Registry) : Registry :=
  match d with
  | [] => [(k, a)]
  | (k', a') :: d' =>
      if String.eqb k' k then (k, a) :: d' else (k', a') :: dict_set k a d'
  end.

(** [ADAPTERS.get(key)]. *)
Fixpoint dict_get (k : string) (d : Registry) : option Adapter :=
  match d with
  | [] => None
  | (k', a') :: d' => if String.eqb k' k then Some a' else dict_get k d'
  end.

(** [register(adapter_cls)]: [ADAPTERS[inst.key] = inst]. *)
Definition register (inst : Adapter) (ADAPTERS : Registry) : Registry :=
  dict_set (key inst) inst ADAPTERS.

(** The registry once the module is loaded: the [@register] decorators in
    the order of the file. *)
Definition ADAPTERS `{Collaborators} : Registry :=
  foldl (λ d inst, register inst d) []
    [ LearningGovAdapter; LearnEthiopiaAdapter; EduHubAdapter; ALXAdapter;
      SmartEthioAdapter; AfriworkAdapter; KubayaAdapter; StaffordAdapter;
      ELearnETHAdapter; AAUAdapter; AAUElearnAfricaAdapter; StMarysAdapter;
      ILIAdapter; InfonetAdapter; MicrolinkAdapter; EnnliteAdapter;
      GxCampAdapter; LearnUpAdapter; FiveMillionCodersAdapter; HagerlyAdapter;
      HaletaAdapter; ZemenTechAdapter ].

(** ** The csv module: writing *)

Definition QUOTE : ascii := "034"%char.
Definition COMMA : ascii := ","%char.
Definition CR : ascii := "013"%char.
Definition LF : ascii := "010"%char.

Module csv.

(** Values a row may hold, and the text the writer puts for each: [None]
    as the empty string, a [str] as it is, anything else through [str()]. *)
Inductive pyval : Type :=
| VNone
| VStr (s : string)
| VBool (b : bool)
| VInt (z : Z).

Definition field_text (v : pyval) : string :=
  match v with
  | VNone => ""
  | VStr s => s
  | VBool true => "True"
  | VBool false => "False"
  | VInt z => pretty z
  end.

(** The excel dialect: comma as delimiter, the double quote as quotechar, doublequote,
    lineterminator CR LF, QUOTE_MINIMAL.  A character that forces the
    field into quotes: *)
Definition special (c : ascii) : bool :=
  Ascii.eqb c COMMA || Ascii.eqb c QUOTE || Ascii.eqb c CR || Ascii.eqb c LF.

(** [join_append_data]: copy the field, doubling each quote character. *)
Fixpoint join_append_data (f : list ascii) : list ascii :=
  match f with
  | [] => []
  | c :: f' =>
      if Ascii.eqb c QUOTE then QUOTE :: QUOTE :: join_append_data f'
      else c :: join_append_data f'
  end.

Definition join_append (f : list ascii) : list ascii :=
  if existsb special f then QUOTE :: join_append_data f ++ [QUOTE] else f.

Fixpoint join (fs : list (list ascii)) : list ascii :=
  match fs with
  | [] => []
  | [f] => join_append f
  | f :: fs' => join_append f ++ COMMA :: join fs'
  end.

(** [writer.writerow]: the joined fields and the line terminator; a row
    made of one empty field is written as a pair of quotes. *)
Definition writerow_chars (fs : list (list ascii)) : list ascii :=
  match fs with
  | [ [] ] => [QUOTE; QUOTE; CR; LF]
  | _ => join fs ++ [CR; LF]
  end.

Definition writerow_text (row : list string) : string :=
  string_of_list_ascii (writerow_chars (list_ascii_of_string <$> row)).

End csv.

(** ** The file system *)

Definition FileNotFoundError (p : string) : exn :=
  OSError "FileNotFoundError" ("[Errno 2] No such file or directory: '" +:+ p +:+ "'").
Definition FileExistsError (p : string) : exn :=
  OSError "FileExistsError" ("[Errno 17] File exists: '" +:+ p +:+ "'").
Definition IsADirectoryError (p : string) : exn :=
  OSError "IsADirectoryError" ("[Errno 21] Is a directory: '" +:+ p +:+ "'").

Module os.

Definition is_slash (c : ascii) : bool := Ascii.eqb c "/"%char.

Fixpoint dropwhile (p : ascii → bool) (l : list ascii) : list ascii :=
  match l with
  | [] => []
  | c :: l' => if p c then dropwhile p l' else l
  end.

(** [posixpath.dirname]: everything up to and including the last slash,
    then without its trailing slashes unless it is made of slashes only. *)
Definition dirname_chars (p : list ascii) : list ascii :=
  let head := rev (dropwhile (λ c, negb (is_slash c)) (rev p)) in
  if forallb is_slash head then head
  else rev (dropwhile is_slash (rev head)).

Definition path_dirname (p : string) : string :=
  string_of_list_ascii (dirname_chars (list_ascii_of_string p)).

(** The directories above [p], nearest last, and [p] itself. *)
Fixpoint parents_go (fuel : nat) (p : string) : list string :=
  match fuel with
  | O => []
  | S fuel' =>
      let d := path_dirname p in
      if String.eqb d "" || String.eqb d p then []
      else parents_go fuel' d ++ [d]
  end.
Definition with_parents (p : string) : list string :=
  parents_go (String.length p) p ++ [p].

Definition isdir (f : FS) (p : string) : bool :=
  bool_decide (p ∈ dirs f) || forallb is_slash (list_ascii_of_string p).

Definition set_fs (f : FS) (s : State) : State :=
  mkState (requests s) (sleeps s) (warnings s) (stdout s) f.

(** [os.makedirs(name, exist_ok=...)]: [mkdir] of the empty name fails
    with ENOENT; a regular file in the way fails with EEXIST; so does an
    existing leaf unless [exist_ok]; otherwise the leaf and every missing
    directory above it exist afterwards. *)
Definition makedirs (name : string) (exist_ok : bool) : M unit :=
  λ s,
    if String.eqb name "" then (inl (FileNotFoundError name), s)
    else if existsb (λ d, bool_decide (is_Some (files (fs s) !! d))) (with_parents name)
    then (inl (FileExistsError name), s)
    else if isdir (fs s) name && negb exist_ok
    then (inl (FileExistsError name), s)
    else (inr tt,
          set_fs (mkFS (list_to_set (with_parents name) ∪ dirs (fs s)) (files (fs s))) s).

End os.

(** [open(path, "w", newline='', encoding="utf-8")]: the file is created
    or emptied; its directory must exist. *)
Definition open_w (path : string) : M unit :=
  λ s,
    let d := os.path_dirname path in
    if String.eqb path "" then (inl (FileNotFoundError path), s)
    else if os.isdir (fs s) path then (inl (IsADirectoryError path), s)
    else if negb (String.eqb d "") && negb (os.isdir (fs s) d)
    then (inl (FileNotFoundError path), s)
    else (inr tt, os.set_fs (mkFS (dirs (fs s)) (<[path := ""]> (files (fs s)))) s).

(** [f.write(data)] on the file opened at [path]. *)
Definition file_write (path data : string) : M unit :=
  λ s,
    let old := default "" (files (fs s) !! path) in
    (inr tt, os.set_fs (mkFS (dirs (fs s)) (<[path := old +:+ data]> (files (fs s)))) s).

(** [for x in xs: body x] outside a generator. *)
Fixpoint for_M {X} (xs : list X) (body : X → M unit) : M unit :=
  match xs with
  | [] => mret tt
  | x :: xs' => body x;; for_M xs' body
  end.

Fixpoint for_M_with {X L} (xs : list X) (body : X → L → M L) (l : L) : M L :=
  match xs with
  | [] => mret l
  | x :: xs' => l1 ← body x l; for_M_with xs' body l1
  end.

(** ** The sink *)

Definition FIELDS : list string :=
  [ "course_id"; "course_title"; "url"; "is_paid"; "price"; "num_subscribers";
    "num_reviews"; "num_lectures"; "level"; "content_duration";
    "published_timestamp"; "subject"; "provider"; "language" ].

Definition opt_val {A} (f : A → csv.pyval) (o : option A) : csv.pyval :=
  match o with Some a => f a | None => csv.VNone end.

(** [getattr(c, k)]. *)
Definition getattr (c : Course) (k : string) : M csv.pyval :=
  if String.eqb k "course_id" then mret (csv.VStr (course_id c))
  else if String.eqb k "course_title" then mret (csv.VStr (course_title c))
  else if String.eqb k "url" then mret (csv.VStr (url c))
  else if String.eqb k "is_paid" then mret (opt_val csv.VBool (is_paid c))
  else if String.eqb k "price" then mret (opt_val csv.VStr (price c))
  else if String.eqb k "num_subscribers" then mret (opt_val csv.VInt (num_subscribers c))
  else if String.eqb k "num_reviews" then mret (opt_val csv.VInt (num_reviews c))
  else if String.eqb k "num_lectures" then mret (opt_val csv.VInt (num_lectures c))
  else if String.eqb k "level" then mret (opt_val csv.VStr (level c))
  else if String.eqb k "content_duration" then mret (opt_val csv.VStr (content_duration c))
  else if String.eqb k "published_timestamp" then mret (opt_val csv.VStr (published_timestamp c))
  else if String.eqb k "subject" then mret (opt_val csv.VStr (subject c))
  else if String.eqb k "provider" then mret (opt_val csv.VStr (provider c))
  else if String.eqb k "language" then mret (opt_val csv.VStr (language c))
  else raise (AttributeError ("'Course' object has no attribute '" +:+ k +:+ "'")).

(** [csv.DictWriter(f, fieldnames)], [f] being the file opened at [path]. *)
Section DictWriter.
Variable path : string.
Variable fieldnames : list string.

(** [writerow(rowdict)]: a key outside [fieldnames] raises [ValueError];
    the values are taken in the order of [fieldnames], a missing one
    being [restval], the empty string. *)
Definition DictWriter_writerow (rowdict : gmap string csv.pyval) : M unit :=
  if bool_decide (dom rowdict ⊆ (list_to_set fieldnames : gset string)) then
    let values := (λ k, default (csv.VStr "") (rowdict !! k)) <$> fieldnames in
    file_write path (csv.writerow_text (csv.field_text <$> values))
  else raise (OtherException "ValueError: dict contains fields not in fieldnames").

(** [writeheader()]: [writerow(dict(zip(fieldnames, fieldnames)))]. *)
Definition DictWriter_writeheader : M unit :=
  DictWriter_writerow (list_to_map ((λ k, (k, csv.VStr k)) <$> fieldnames)).
End DictWriter.

Definition write_csv (rows : list Course) (out_path : string) : M unit :=
  os.makedirs (os.path_dirname out_path) true;;
  open_w out_path;;
  DictWriter_writeheader out_path FIELDS;;
  for_M rows (λ c,
    rowdict ← for_M_with FIELDS (λ k (d : gmap string csv.pyval),
                 v ← getattr c k; mret (<[k := v]> d)) ∅;
    DictWriter_writerow out_path FIELDS rowdict).

(** ** Runner and command line *)

Definition run_one (ADAPTERS : Registry) (key : string) : M (list Course) :=
  match dict_get key ADAPTERS with
  | None =>
      raise (SystemExit ("Unknown site key: " +:+ key +:+
                         ". Use --list-sites to see options."))
  | Some adapter =>
      courses ← to_list (iter_courses adapter);
      mret courses
  end.

Definition run_all (ADAPTERS : Registry) : M (list Course) :=
  for_M_with ADAPTERS (λ '(key, adapter) all_courses,
    if String.eqb key "base" then mret all_courses
    else
      try_except
        (items ← to_list (iter_courses adapter);
         mret (all_courses ++ items))
        (λ e,
           logging_warning (display_name adapter +:+ ": " +:+ exn_str e);;
           mret all_courses)) [].

(** What [argparse] hands to [main]. *)
Record Args : Type := mkArgs {
  site : option string;
  all : bool;
  out : string;
  list_sites : bool
}.

(** Truth value of [args.site]: [None] and the empty string are false. *)
Definition truthy (o : option string) : bool :=
  match o with
  | None | Some EmptyString => false
  | Some _ => true
  end.

(** [f"{k:20s}"]: left-justified in a field of 20. *)
Definition ljust20 (k : string) : string :=
  k +:+ string_of_list_ascii (replicate (20 - String.length k) " "%char).

Definition main (ADAPTERS : Registry) (args : Args) : M unit :=
  if list_sites args then
    print "Available site keys:";;
    for_M ADAPTERS (λ '(k, a),
      if String.eqb k "base" then mret tt
      else print ("  " +:+ ljust20 k +:+ " -> " +:+ display_name a))
  else if truthy (site args) && all args then
    raise (SystemExit "Use either --site or --all, not both.")
  else if negb (truthy (site args)) && negb (all args) then
    raise (SystemExit "Please specify --site <key> or --all. Use --list-sites to see keys.")
  else
    courses ← (if truthy (site args)
               then run_one ADAPTERS (default "" (site args))
               else run_all ADAPTERS);
    write_csv courses (out args);;
    print ("Wrote " +:+ pretty (length courses) +:+ " rows -> " +:+ out args).

(** ** The csv module: reading *)

Module csv_reader.

(** The states of the parser that the excel dialect can reach. *)
Inductive ParserState : Type :=
| START_RECORD
| START_FIELD
| IN_FIELD
| IN_QUOTED_FIELD
| QUOTE_IN_QUOTED_FIELD
| EAT_CRNL.

(** The reader between two characters: the state, the field being read
    (last character first) and the fields of the record read so far
    (last field first). *)
Record Reader : Type := mkReader {
  state : ParserState;
  field : list ascii;
  fields : list string
}.

Definition parse_reset : Reader := mkReader START_RECORD [] [].

Definition parse_save_field (st : ParserState) (r : Reader) : Reader :=
  mkReader st [] (string_of_list_ascii (rev (field r)) :: fields r).

Definition parse_add_char (st : ParserState) (c : ascii) (r : Reader) : Reader :=
  mkReader st (c :: field r) (fields r).

Definition set_state (st : ParserState) (r : Reader) : Reader :=
  mkReader st (field r) (fields r).

Definition is_newline (c : ascii) : bool := Ascii.eqb c LF || Ascii.eqb c CR.

Definition Error (msg : string) : exn := OtherException ("_csv.Error: " +:+ msg).

(** [parse_process_char] on a character of the line. *)
Definition process_char (r : Reader) (c : ascii) : exn + Reader :=
  let start_field r :=
    if is_newline c then inr (parse_save_field EAT_CRNL r)
    else if Ascii.eqb c QUOTE then inr (set_state IN_QUOTED_FIELD r)
    else if Ascii.eqb c COMMA then inr (parse_save_field START_FIELD r)
    else inr (parse_add_char IN_FIELD c r) in
  match state r with
  | START_RECORD =>
      if is_newline c then inr (set_state EAT_CRNL r)
      else start_field r
  | START_FIELD => start_field r
  | IN_FIELD =>
      if is_newline c then inr (parse_save_field EAT_CRNL r)
      else if Ascii.eqb c COMMA then inr (parse_save_field START_FIELD r)
      else inr (parse_add_char IN_FIELD c r)
  | IN_QUOTED_FIELD =>
      if Ascii.eqb c QUOTE then inr (set_state QUOTE_IN_QUOTED_FIELD r)
      else inr (parse_add_char IN_QUOTED_FIELD c r)
  | QUOTE_IN_QUOTED_FIELD =>
      if Ascii.eqb c QUOTE then inr (parse_add_char IN_QUOTED_FIELD c r)
      else if Ascii.eqb c COMMA then inr (parse_save_field START_FIELD r)
      else if is_newline c then inr (parse_save_field EAT_CRNL r)
      else inr (parse_add_char IN_FIELD c r)
  | EAT_CRNL =>
      if is_newline c then inr r
      else inl (Error "new-line character seen in unquoted field")
  end.

(** [parse_process_char] on the end-of-line mark that follows the last
    character of every line. *)
Definition process_eol (r : Reader) : Reader :=
  match state r with
  | START_RECORD => r
  | START_FIELD | IN_FIELD | QUOTE_IN_QUOTED_FIELD => parse_save_field START_RECORD r
  | IN_QUOTED_FIELD => r
  | EAT_CRNL => set_state START_RECORD r
  end.

Definition is_START_RECORD (st : ParserState) : bool :=
  match st with START_RECORD => true | _ => false end.
Definition is_IN_QUOTED_FIELD (st : ParserState) : bool :=
  match st with IN_QUOTED_FIELD => true | _ => false end.

(** A line of a file opened with [newline=''] ends after LF, after CR LF,
    and after a CR that no LF follows. *)
Definition line_ends (c : ascii) (rest : list ascii) : bool :=
  Ascii.eqb c LF ||
  (Ascii.eqb c CR && negb (match rest with c' :: _ => Ascii.eqb c' LF | [] => false end)).

(** The end of a line: the end-of-line mark is processed, and a record
    is complete when that leaves the parser in [START_RECORD]. *)
Definition end_line (r : Reader) (rows : list (list string))
    : Reader * list (list string) :=
  let r1 := process_eol r in
  if is_START_RECORD (state r1) then (parse_reset, rev (fields r1) :: rows)
  else (r1, rows).

(** [list(csv.reader(f))], character by character, with
    [csv.field_size_limit] above the length of every field.  [rows] are the
    records read so far, last first; [midline] tells whether characters
    of an unfinished line have been read.  At the end of the input an
    unfinished last line ends, and a record left open inside a quoted
    field is closed as it is. *)
Fixpoint read (r : Reader) (rows : list (list string)) (midline : bool)
    (cs : list ascii) : exn + list (list string) :=
  match cs with
  | [] =>
      let '(r1, rows1) := if midline then end_line r rows else (r, rows) in
      if negb (bool_decide (field r1 = [])) || is_IN_QUOTED_FIELD (state r1)
      then inr (rev (rev (fields (parse_save_field START_RECORD r1)) :: rows1))
      else inr (rev rows1)
  | c :: cs' =>
      match process_char r c with
      | inl e => inl e
      | inr r1 =>
          if line_ends c cs' then
            let '(r2, rows2) := end_line r1 rows in read r2 rows2 false cs'
          else read r1 rows true cs'
      end
  end.

Definition read_text (content : string) : exn + list (list string) :=
  read parse_reset [] false (list_ascii_of_string content).

(** A reader that has just read the field [f] of a record whose earlier
    fields are [flds]: the delimiter and the line end both save [f]. *)
Definition holds (f : list ascii) (flds : list string) (r : Reader) : Prop :=
  fields r = flds ∧ rev (field r) = f ∧
  process_char r COMMA = inr (parse_save_field START_FIELD r) ∧
  process_char r CR = inr (parse_save_field EAT_CRNL r).

End csv_reader.

(** What reading the file at [path] back with [csv.reader] gives. *)
Definition read_csv (path : string) (s : State) : option (exn + list (list string)) :=
  csv_reader.read_text <$> files (fs s) !! path.

(** The row of texts a Course stands for in the table. *)
Definition course_row (c : Course) : list string :=
  [ course_id c; course_title c; url c;
    csv.field_text (opt_val csv.VBool (is_paid c));
    csv.field_text (opt_val csv.VStr (price c));
    csv.field_text (opt_val csv.VInt (num_subscribers c));
    csv.field_text (opt_val csv.VInt (num_reviews c));
    csv.field_text (opt_val csv.VInt (num_lectures c));
    csv.field_text (opt_val csv.VStr (level c));
    csv.field_text (opt_val csv.VStr (content_duration c));
    csv.field_text (opt_val csv.VStr (published_timestamp c));
    csv.field_text (opt_val csv.VStr (subject c));
    csv.field_text (opt_val csv.VStr (provider c));
    csv.field_text (opt_val csv.VStr (language c)) ].

(** ** Transport behaviours *)

Section Behaviours.
Context `{Collaborators}.

(** An attempt on [u] after the requests [history] fails in a way [get]
    retries: the transport raises a network exception, or answers with a
    status of 400 or more. *)
Definition attempt_fails (history : list string) (u : string) : Prop :=
  match transport history u with
  | Raises (RequestException _) => True
  | Raises _ => False
  | Responds r => 400 ≤ status_code r
  end.

(** The attempt succeeds with response [r]. *)
Definition attempt_succeeds (history : list string) (u : string) (r : Response) : Prop :=
  transport history u = Responds r ∧ status_code r < 400.

(** Every attempt on [u] fails, whatever was requested before. *)
Definition unreachable (u : string) : Prop :=
  ∀ history, attempt_fails history u.
End Behaviours.

(** The state after one more request, and after one more wait. *)
Definition requested (u : string) (s : State) : State :=
  mkState (requests s ++ [u]) (sleeps s) (warnings s) (stdout s) (fs s).
Definition slept (secs : Z) (s : State) : State :=
  mkState (requests s) (sleeps s ++ [secs]) (warnings s) (stdout s) (fs s).
Definition warned (line : string) (s : State) : State :=
  mkState (requests s) (sleeps s) (warnings s ++ [line]) (stdout s) (fs s).

(** The state [get] leaves after three attempts on [u]. *)
Definition after_three (u : string) (s : State) : State :=
  requested u (slept (tenacity.wait_exponential 1 1 8 2)
    (requested u (slept (tenacity.wait_exponential 1 1 8 1) (requested u s)))).

(** ** The aggregation of an all-sources run, as specified *)

(** The result the specification gives to an all-sources run: the entries
    are visited in registration order; the list of an adapter that ends
    normally is put in front of what the later ones give; an adapter that
    raises gives nothing, is logged with its [display_name] and the
    message of the exception, and the later ones are still run.  [skip]
    says which keys are passed over and [caught] which exceptions the
    isolation boundary holds back. *)
Fixpoint aggregate (skip : string → bool) (caught : exn → bool)
    (reg : Registry) : M (list Course) :=
  match reg with
  | [] => mret []
  | (k, a) :: rest =>
      if skip k then aggregate skip caught rest
      else λ s,
        match to_list (iter_courses a) s with
        | (inr items, s1) =>
            match aggregate skip caught rest s1 with
            | (inr more, s2) => (inr (items ++ more), s2)
            | (inl e, s2) => (inl e, s2)
            end
        | (inl e, s1) =>
            if caught e
            then aggregate skip caught rest
                   (warned (display_name a +:+ ": " +:+ exn_str e) s1)
            else (inl e, s1)
        end
  end.

(** The text of a table: the lines the writer puts for its rows, one
    after the other. *)
Definition table_text (rows : list (list string)) : string :=
  foldr String.append "" (csv.writerow_text <$> rows).

(** The dict [{k: getattr(c, k) for k in FIELDS}]. *)
Definition course_dict (c : Course) : gmap string csv.pyval :=
  <["language" := opt_val csv.VStr (language c)]>
  (<["provider" := opt_val csv.VStr (provider c)]>
  (<["subject" := opt_val csv.VStr (subject c)]>
  (<["published_timestamp" := opt_val csv.VStr (published_timestamp c)]>
  (<["content_duration" := opt_val csv.VStr (content_duration c)]>
  (<["level" := opt_val csv.VStr (level c)]>
  (<["num_lectures" := opt_val csv.VInt (num_lectures c)]>
  (<["num_reviews" := opt_val csv.VInt (num_reviews c)]>
  (<["num_subscribers" := opt_val csv.VInt (num_subscribers c)]>
  (<["price" := opt_val csv.VStr (price c)]>
  (<["is_paid" := opt_val csv.VBool (is_paid c)]>
  (<["url" := csv.VStr (url c)]>
  (<["course_title" := csv.VStr (course_title c)]>
  (<["course_id" := csv.VStr (course_id c)]> ∅))))))))))))).

(** ** Fatal invocations *)

(** The invocations C4 calls fatal, as the claim words them: both
    [--site] and [--all] passed, neither passed, or [--site] with a key
    the registry does not hold. *)
Definition fatal_as_stated (reg : Registry) (args : Args) : Prop :=
  (is_Some (site args) ∧ all args = true) ∨
  (site args = None ∧ all args = false) ∨
  (∃ k, site args = Some k ∧ dict_get k reg = None).

(** The same three cases, for an invocation without [--list-sites] and
    counting an empty [--site] value as no value, as [main] tests it. *)
Definition fatal (reg : Registry) (args : Args) : Prop :=
  list_sites args = false ∧
  ((truthy (site args) = true ∧ all args = true) ∨
   (truthy (site args) = false ∧ all args = false) ∨
   (∃ k, site args = Some k ∧ k ≠ "" ∧ all args = false ∧ dict_get k reg = None)).

(** ** Example worlds *)

Module Examples.

(** A toy page format: the markup is a list of words, each an anchor
    whose href is the word and whose text is empty; headings are absent;
    the pattern matches when the subject contains the word course. *)
Definition toy_select (page css : string) : list Tag :=
  (λ w, mkTag (Some w) "") <$> String.words page.

Definition toy (t : list string → string → transport_result) : Collaborators :=
  {| transport := t;
     soup_select := toy_select;
     soup_select_one := λ _ _, None;
     soup_find := λ _ _, None;
     re_search_I := λ _ subject, str_in "course" subject |}.

(** Two failures (a time-out, then a 503), then a page. *)
Definition flaky : Collaborators :=
  toy (λ history _,
    match length history with
    | O => Raises (RequestException "timed out")
    | 1%nat => Responds (mkResponse 503 "")
    | _ => Responds (mkResponse 200 "/course/1 /about")
    end).

(** Every request is answered with status 500. *)
Definition down : Collaborators :=
  toy (λ _ _, Responds (mkResponse 500 "")).

(** Every request is answered with the same page of three anchors. *)
Definition up (base : string) : Collaborators :=
  toy (λ _ _, Responds (mkResponse 200
         ("/lesson/2 " +:+ base +:+ "/course/1 /course/1 /about"))).

(** An adapter class that keeps the key of [BaseAdapter] and yields one
    Course. *)
Definition unnamed_adapter : Adapter :=
  mkAdapter "base" "Base" None false (mret true)
    (yield (Course_ "https://x.example/c1" "Course 1" "https://x.example/c1" "Base")).

(** An adapter whose policy gate says no, and which would yield one
    Course. *)
Definition forbidden_adapter : Adapter :=
  mkAdapter "forbidden" "Forbidden" (Some "https://f.example") false (mret false)
    (yield (Course_ "https://f.example/c1" "Course 1" "https://f.example/c1" "Forbidden")).

(** Three Courses with some fields filled and some absent; one title holds
    a comma, a quote and a line break. *)
Definition three_courses : list Course :=
  [ mkCourse "https://x.example/c1" "Networks, part 1" "https://x.example/c1"
      (Some true) (Some "120 ETB") (Some 1500) None (Some 12)
      (Some "Beginner") None None (Some "ICT") (Some "X") (Some "Amharic");
    Course_ "https://x.example/c2"
      (String "S" (String QUOTE (String LF "x"))) "https://x.example/c2" "X";
    mkCourse "c3" "" "https://y.example/c3"
      (Some false) None None (Some 0) None None None None None None None ].

End Examples.

(** ** Registries built by registration *)

(** The registry after the classes [insts] were decorated with
    [@register], in that order. *)
Definition registered (insts : list Adapter) : Registry :=
  foldl (λ d inst, register inst d) [] insts.

(** The lines [main] prints under [--list-sites], after the heading. *)
Definition site_lines (reg : list (string * Adapter)) : list string :=
  (λ e : string * Adapter, "  " +:+ ljust20 e.1 +:+ " -> " +:+ display_name e.2)
    <$> filter (λ e : string * Adapter, e.1 ≠ "base") reg.

(** The state after one more printed line. *)
Definition printed (line : string) (s : State) : State :=
  mkState (requests s) (sleeps s) (warnings s) (stdout s ++ [line]) (fs s).

(** ** States of the file system *)

(** The state once the directory part of [p] and the directories above it
    exist. *)
Definition made (p : string) (s : State) : State :=
  os.set_fs (mkFS (list_to_set (os.with_parents (os.path_dirname p)) ∪ dirs (fs s))
                  (files (fs s))) s.

(** The state once the file at [p] holds [content]. *)
Definition saved (p content : string) (s : State) : State :=
  os.set_fs (mkFS (dirs (fs s)) (<[p := content]> (files (fs s)))) s.

(** A name without a slash. *)
Definition bare (p : string) : Prop :=
  forallb (λ c, negb (os.is_slash c)) (list_ascii_of_string p) = true.

(** The run that the flags select in [main]. *)
Definition selected_run (reg : Registry) (args : Args) : M (list Course) :=
  if truthy (site args)
  then run_one reg (default "" (site args))
  else run_all reg.

(** ** Families of adapters *)

Section Families.
Context `{Collaborators}.

(** The adapters that fetch their base page inside
    [try: ... except Exception: return []]. *)
Definition guarded_adapters : list Adapter :=
  [ SmartEthioAdapter; AfriworkAdapter; AAUAdapter; AAUElearnAfricaAdapter;
    StMarysAdapter; ILIAdapter; InfonetAdapter; MicrolinkAdapter;
    EnnliteAdapter; GxCampAdapter ].

(** The adapters that fetch their base page outside any [try]. *)
Definition unguarded_adapters : list Adapter :=
  [ LearningGovAdapter; EduHubAdapter; ALXAdapter; KubayaAdapter; StaffordAdapter ].

(** The adapters whose [iter_courses] is [return []]. *)
Definition stub_adapters : list Adapter :=
  [ LearnUpAdapter; FiveMillionCodersAdapter; HagerlyAdapter; HaletaAdapter;
    ZemenTechAdapter ].

(** The adapters that scan the anchors of their base page only, each with
    the pattern its links are tested against. *)
Definition scanning_adapters : list (Adapter * string) :=
  [ (EduHubAdapter, "course|training|solution|product");
    (ALXAdapter, "program|course|software|data|cloud|ai");
    (SmartEthioAdapter, "grade|subject|course|lesson|exam");
    (AfriworkAdapter, "learn|academy|blog|training|skills");
    (KubayaAdapter, "course|lesson|learn|levels|amharic");
    (StaffordAdapter, "program|course|mba|msc|pgce|degree");
    (AAUAdapter, "course|program|catalog|category");
    (AAUElearnAfricaAdapter, "course|program|catalog|category");
    (StMarysAdapter, "distance|program|course|degree");
    (ILIAdapter, "program|course|diploma|degree|certificate");
    (InfonetAdapter, "short-course|training|program|course");
    (MicrolinkAdapter, "cisco|ict|program|course|training");
    (EnnliteAdapter, "course|training|graphic|marketing|web|app");
    (GxCampAdapter, "course|ict|english|web|amharic") ].

End Families.

(** How a generator ends from state [s]. *)
Definition ending {A} (g : G A) (s : State) : exn + A := (g s).1.2.

(** ** The loops of LearnEthiopia.com, named *)

Section LearnEthiopiaLoops.
Context `{Collaborators}.

(** The inner loop body of [LearnEthiopiaAdapter.iter_courses]: one anchor
    of a catalog page, with the set [seen] as it stands. *)
Definition LearnEthiopia_anchor (a : Tag) (seen : gset string) : G (gset string) :=
  let display_name := "LearnEthiopia.com" in
  let base_url := "https://learnethiopia.com" in
  match tag_href a with
  | None | Some EmptyString => mret seen
  | Some href =>
      let href := resolve base_url href in
      if negb (str_in base_url href) || bool_decide (href ∈ seen)
      then mret seen
      else if re_search_I "/course/|/courses/|/program/" href then
        let seen := {[ href ]} ∪ seen in
        r ← attempt (soup href);
        let title :=
          match r with
          | inr csoup =>
              match soup_select_one csoup "h1, h2.page-title, .course-title" with
              | Some title_el => tag_text title_el
              | None => str_or (tag_text a) href
              end
          | inl _ => str_or (tag_text a) href
          end in
        yield (Course_ href title href display_name);;
        mret seen
      else mret seen
  end.

(** The outer loop body: one catalog page. *)
Definition LearnEthiopia_page (u : string) (seen : gset string) : G (gset string) :=
  r ← attempt (soup u);
  match r with
  | inl _ => mret seen
  | inr soup_ => for_each_with (soup_select soup_ "a[href]") LearnEthiopia_anchor seen
  end.

End LearnEthiopiaLoops.

(** Running [g] with the set [seen] yields Courses whose URLs are new to
    [seen] and differ from one another, and a normal end hands on [seen]
    with exactly those URLs added. *)
Definition adds_fresh (seen : gset string) (g : G (gset string)) : Prop :=
  ∀ s, NoDup (url <$> yielded g s) ∧
       (∀ u, u ∈ url <$> yielded g s → u ∉ seen) ∧
       (∀ seen', ending g s = inr seen' →
                 seen' = list_to_set (url <$> yielded g s) ∪ seen).

(** No exception derived from [Exception] leaves the generator. *)
Definition contained {A} (g : G A) : Prop :=
  ∀ s e, ending g s = inl e → is_Exception e = false.

(** ** The Selenium helper *)

Module selenium.

(** What the helper does to the browser and the clock, in order. *)
Inductive Event : Type :=
| Chrome_started
| page_requested (u : string)
| slept (secs : Q)
| element_sought (css : string)
| source_read
| driver_quit.

(** The Selenium side: whether the optional import succeeded
    ([webdriver is not None]), and for each call on the driver whether it
    raises, given what was done before. *)
Class Driver : Type := {
  webdriver_present : bool;
  Chrome_raises : list Event → option exn;
  get_raises : list Event → string → option exn;
  find_element_raises : list Event → string → option exn;
  page_source : list Event → exn + string;
  quit_raises : list Event → option exn
}.

(** Calls of the helper: the events so far are threaded through. *)
Definition B (A : Type) : Type := list Event → (exn + A) * list Event.

Definition bret {A} (a : A) : B A := λ h, (inr a, h).
Definition braise {A} (e : exn) : B A := λ h, (inl e, h).
Definition bbind {A C} (m : B A) (k : A → B C) : B C :=
  λ h, match m h with
       | (inr a, h1) => k a h1
       | (inl e, h1) => (inl e, h1)
       end.
Global Instance B_ret : MRet B := @bret.
Global Instance B_bind : MBind B := λ A C k m, bbind m k.

(** A call that is recorded and may raise. *)
Definition act (ev : Event) (raises : list Event → option exn) : B unit :=
  λ h, match raises h with
       | Some e => (inl e, h ++ [ev])
       | None => (inr tt, h ++ [ev])
       end.

(** [try: body  finally: fin]: [fin] runs however [body] ends; an
    exception of [fin] replaces the outcome of [body]. *)
Definition try_finally {A} (body : B A) (fin : B unit) : B A :=
  λ h, match body h with
       | (r, h1) =>
           match fin h1 with
           | (inl e, h2) => (inl e, h2)
           | (inr _, h2) => (r, h2)
           end
       end.

(** [time.sleep(secs)]: a negative length raises [ValueError]. *)
Definition time_sleep (secs : Q) : B unit :=
  if Qle_bool 0 secs then act (slept secs) (λ _, None)
  else braise (OtherException "ValueError: sleep length must be non-negative").

Definition is_quit (ev : Event) : bool :=
  match ev with driver_quit => true | _ => false end.

Section Helper.
Context `{Driver}.

(** [driver.page_source]. *)
Definition read_source : B string :=
  λ h, (page_source h, h ++ [source_read]).

(** [BaseAdapter.selenium_html(url, wait_css, sleep)]. *)
Definition selenium_html (u : string) (wait_css : option string) (sleep : Q)
    : B string :=
  if negb webdriver_present then
    braise (ScrapeError "Selenium not installed. pip install selenium webdriver-manager")
  else
    act Chrome_started Chrome_raises;;
    try_finally
      (act (page_requested u) (λ h, get_raises h u);;
       (if negb (Qeq_bool sleep 0) then time_sleep sleep else bret tt);;
       (match wait_css with
        | None | Some EmptyString => bret tt
        | Some css => act (element_sought css) (λ h, find_element_raises h css)
        end);;
       read_source)
      (act driver_quit quit_raises).

End Helper.

End selenium.

(** ** More example worlds *)

Module MoreExamples.

(** The transport raises an exception that is no network error. *)
Definition broken : Collaborators :=
  Examples.toy (λ _ _, Raises (OtherException "unsupported argument")).

(** An adapter interrupted from the keyboard after its first Course. *)
Definition interrupted_adapter : Adapter :=
  mkAdapter "interrupted" "Interrupted" None false (mret true)
    (yield (Course_ "c1" "Course 1" "c1" "Interrupted");; call (raise KeyboardInterrupt)).

(** A transport interrupted from the keyboard at every request. *)
Definition interrupting : Collaborators :=
  Examples.toy (λ _ _, Raises KeyboardInterrupt).

(** A browser whose page never shows the awaited element. *)
Definition element_missing : selenium.Driver :=
  {| selenium.webdriver_present := true;
     selenium.Chrome_raises := λ _, None;
     selenium.get_raises := λ _ _, None;
     selenium.find_element_raises := λ _ _, Some (OtherException "NoSuchElementException");
     selenium.page_source := λ _, inr "<html></html>";
     selenium.quit_raises := λ _, None |}.

End MoreExamples.

(** * Properties *)

(** ** The retry decorator *)

(** The counter [left] of [tenacity.attempts] is the stop rule of
    [stop_after_attempt]: nothing is left exactly when the rule says stop. *)
Lemma left_stop (max_attempt_number attempt_number : nat) :
  (1 ≤ attempt_number)%nat →
  (max_attempt_number - attempt_number = 0)%nat ↔
  tenacity.stop_after_attempt max_attempt_number attempt_number = true.
Proof.
  intros _. unfold tenacity.stop_after_attempt.
  rewrite Nat.leb_le. lia.
Qed.

Section FetchProperties.
Context `{Collaborators}.

Lemma get_body_eq u s :
  get_body u s =
  match transport (requests s) u with
  | Responds r =>
      if 400 <=? status_code r
      then (inl (ScrapeError ("GET " +:+ u +:+ " -> " +:+ pretty (status_code r))),
            requested u s)
      else (inr r, requested u s)
  | Raises e => (inl e, requested u s)
  end.
Proof.
  unfold get_body, SESSION_get, requested, mbind, M_bind, bind.
  destruct (transport (requests s) u) as [r|e]; [|done].
  by destruct (400 <=? status_code r).
Qed.

Lemma get_body_fails history u s :
  requests s = history → attempt_fails history u →
  ∃ e, get_body u s = (inl e, requested u s) ∧
       tenacity.retry_if_exception_type e = true ∧ is_Exception e = true.
Proof.
  intros <- Hf. rewrite get_body_eq. unfold attempt_fails in Hf.
  destruct (transport (requests s) u) as [r|e].
  - apply Z.leb_le in Hf. rewrite Hf. eauto.
  - destruct e; try done. eauto.
Qed.

Lemma get_body_succeeds history u r s :
  requests s = history → attempt_succeeds history u r →
  get_body u s = (inr r, requested u s).
Proof.
  intros <- [Ht Hr]. rewrite get_body_eq, Ht.
  by destruct (Z.leb_spec 400 (status_code r)); [lia|].
Qed.

(** What a run of the retry loop leaves in the state: [n] requests of
    the same URL, one wait after each of the first [n - 1], each wait
    given by the strategy at the number of the attempt that failed. *)
Lemma attempts_trace retry wait u left a s :
  ∃ n, (1 ≤ n ≤ S left)%nat ∧
    let s' := (tenacity.attempts retry wait left a (get_body u) s).2 in
    requests s' = requests s ++ replicate n u ∧
    sleeps s' = sleeps s ++ (wait <$> seq a (n - 1)) ∧
    warnings s' = warnings s ∧ stdout s' = stdout s ∧ fs s' = fs s.
Proof.
  revert a s. induction left as [|left IH]; intros a s; simpl.
  - exists 1%nat. split; [lia|].
    rewrite get_body_eq.
    destruct (transport (requests s) u) as [r|e];
      [destruct (400 <=? status_code r)|]; simpl;
      repeat match goal with |- context [if ?b then _ else _] => destruct b end;
      simpl; by rewrite ?app_nil_r.
  - rewrite get_body_eq.
    assert (∀ e, ∃ n, (1 ≤ n ≤ S (S left))%nat ∧
      let s' := (if retry e
                 then tenacity.attempts retry wait left (S a) (get_body u)
                        (time_sleep (wait a) (requested u s)).2
                 else (inl e, requested u s)).2 in
      requests s' = requests s ++ replicate n u ∧
      sleeps s' = sleeps s ++ (wait <$> seq a (n - 1)) ∧
      warnings s' = warnings s ∧ stdout s' = stdout s ∧ fs s' = fs s) as Hfail.
    { intros e. destruct (retry e).
      - destruct (IH (S a) (time_sleep (wait a) (requested u s)).2)
          as (n & Hn & Hr & Hs & Hw & Ho & Hf).
        exists (S n). split; [lia|]. simpl in *.
        rewrite Hr, Hs, Hw, Ho, Hf. rewrite <- !app_assoc. simpl.
        replace (n - 0)%nat with (S (n - 1)) by lia. done.
      - exists 1%nat. split; [lia|]. simpl. by rewrite app_nil_r. }
    destruct (transport (requests s) u) as [r|e].
    + destruct (400 <=? status_code r); [apply Hfail|].
      exists 1%nat. split; [lia|]. simpl. by rewrite app_nil_r.
    + apply Hfail.
Qed.

Lemma attempts_ok {A} retry wait left a (fn : M A) s r s1 :
  fn s = (inr r, s1) →
  tenacity.attempts retry wait left a fn s = (inr r, s1).
Proof. intros E. destruct left; simpl; by rewrite E. Qed.

Lemma attempts_retry {A} retry wait left a (fn : M A) s e s1 :
  fn s = (inl e, s1) → retry e = true →
  tenacity.attempts retry wait (S left) a fn s =
  tenacity.attempts retry wait left (S a) fn (slept (wait a) s1).
Proof. intros E R. simpl. by rewrite E, R. Qed.

Lemma attempts_stop {A} retry wait a (fn : M A) s e s1 :
  fn s = (inl e, s1) → retry e = true →
  tenacity.attempts retry wait 0 a fn s = (inl (RetryError e), s1).
Proof. intros E R. simpl. by rewrite E, R. Qed.

Lemma attempts_reraise {A} retry wait left a (fn : M A) s e s1 :
  fn s = (inl e, s1) → retry e = false →
  tenacity.attempts retry wait left a fn s = (inl e, s1).
Proof. intros E R. destruct left; simpl; by rewrite E, R. Qed.

Local Abbreviation default_wait := (tenacity.wait_exponential 1 1 8).

Lemma after_three_requests u s :
  requests (after_three u s) = requests s ++ [u; u; u].
Proof. simpl. by rewrite <- !app_assoc. Qed.

Lemma after_three_sleeps u s :
  sleeps (after_three u s) = sleeps s ++ [1; 2].
Proof. simpl. by rewrite <- !app_assoc. Qed.

Lemma get_third_time u s r :
  attempt_fails (requests s) u →
  attempt_fails (requests s ++ [u]) u →
  attempt_succeeds (requests s ++ [u; u]) u r →
  get u s = (inr r, after_three u s).
Proof.
  intros H1 H2 H3.
  set (s1 := slept (default_wait 1%nat) (requested u s)).
  set (s2 := slept (default_wait 2%nat) (requested u s1)).
  assert (requests s2 = requests s ++ [u; u]) as Hs2
    by (simpl; by rewrite <- app_assoc).
  destruct (get_body_fails _ u s eq_refl H1) as (e1 & E1 & R1 & _).
  destruct (get_body_fails _ u s1 eq_refl H2) as (e2 & E2 & R2 & _).
  pose proof (get_body_succeeds _ u r s2 Hs2 H3) as E3.
  unfold get, tenacity.retry_decorator. simpl Nat.sub.
  rewrite (attempts_retry _ _ _ _ _ _ _ _ E1 R1).
  rewrite (attempts_retry _ _ _ _ _ _ _ _ E2 R2).
  by rewrite (attempts_ok _ _ _ _ _ _ _ _ E3).
Qed.

Lemma get_exhausted u s :
  attempt_fails (requests s) u →
  attempt_fails (requests s ++ [u]) u →
  attempt_fails (requests s ++ [u; u]) u →
  ∃ e, get u s = (inl (RetryError e), after_three u s).
Proof.
  intros H1 H2 H3.
  set (s1 := slept (default_wait 1%nat) (requested u s)).
  set (s2 := slept (default_wait 2%nat) (requested u s1)).
  assert (requests s2 = requests s ++ [u; u]) as Hs2
    by (simpl; by rewrite <- app_assoc).
  destruct (get_body_fails _ u s eq_refl H1) as (e1 & E1 & R1 & _).
  destruct (get_body_fails _ u s1 eq_refl H2) as (e2 & E2 & R2 & _).
  destruct (get_body_fails _ u s2 Hs2 H3) as (e3 & E3 & R3 & _).
  exists e3. unfold get, tenacity.retry_decorator. simpl Nat.sub.
  rewrite (attempts_retry _ _ _ _ _ _ _ _ E1 R1).
  rewrite (attempts_retry _ _ _ _ _ _ _ _ E2 R2).
  by rewrite (attempts_stop _ _ _ _ _ _ _ E3 R3).
Qed.

Lemma get_unreachable u s :
  unreachable u → ∃ e, get u s = (inl (RetryError e), after_three u s).
Proof. intros Hu. apply get_exhausted; apply Hu. Qed.

(** C2: [get] makes at most three attempts; two retryable failures
    followed by a success give the successful response, on the third
    attempt; three failures make [get] raise after exactly three attempts
    and nothing is retried further. *)
Theorem get_at_most_three_attempts (u : string) (s : State) :
  let h := requests s in
  (∃ n, (1 ≤ n ≤ 3)%nat ∧ requests (get u s).2 = h ++ replicate n u) ∧
  (∀ r, attempt_fails h u → attempt_fails (h ++ [u]) u →
        attempt_succeeds (h ++ [u; u]) u r →
        (get u s).1 = inr r ∧ requests (get u s).2 = h ++ [u; u; u]) ∧
  (attempt_fails h u → attempt_fails (h ++ [u]) u →
   attempt_fails (h ++ [u; u]) u →
   (∃ e, (get u s).1 = inl (RetryError e)) ∧
   requests (get u s).2 = h ++ [u; u; u]).
Proof.
  intros h. split; [|split].
  - destruct (attempts_trace tenacity.retry_if_exception_type default_wait u 2 1 s)
      as (n & Hn & Hr & _).
    exists n. split; [lia|]. exact Hr.
  - intros r H1 H2 H3. rewrite (get_third_time u s r H1 H2 H3).
    split; [done|]. apply after_three_requests.
  - intros H1 H2 H3. destruct (get_exhausted u s H1 H2 H3) as [e ->].
    split; [by exists e|]. apply after_three_requests.
Qed.

(** C5: under [wait_exponential(multiplier, min, max)] the wait that
    follows failed attempt number [attempt] is
    [min(max, multiplier * 2^(attempt - 1))] raised to at least [min];
    with the defaults of [get], three failing attempts are separated by
    waits of exactly 1 and 2 seconds. *)
Theorem backoff_waits (multiplier min_wait max_wait : Z) (max_attempts : nat)
    (u : string) (s : State) :
  0 ≤ min_wait →
  let g := tenacity.retry_decorator tenacity.retry_if_exception_type
             (tenacity.wait_exponential multiplier min_wait max_wait)
             max_attempts (get_body u) in
  (∃ n, (1 ≤ n ≤ Nat.max 1 max_attempts)%nat ∧
     requests (g s).2 = requests s ++ replicate n u ∧
     sleeps (g s).2 = sleeps s ++
       ((λ attempt : nat,
           Z.max min_wait
             (Z.min max_wait (multiplier * 2 ^ (Z.of_nat attempt - 1))))
        <$> seq 1 (n - 1))) ∧
  (attempt_fails (requests s) u →
   attempt_fails (requests s ++ [u]) u →
   attempt_fails (requests s ++ [u; u]) u →
   sleeps (get u s).2 = sleeps s ++ [1; 2]).
Proof.
  intros Hmin g. split.
  - destruct (attempts_trace tenacity.retry_if_exception_type
                (tenacity.wait_exponential multiplier min_wait max_wait)
                u (max_attempts - 1) 1 s) as (n & Hn & Hr & Hs & _).
    exists n. split; [lia|]. split; [exact Hr|].
    subst g. unfold tenacity.retry_decorator. rewrite Hs. f_equal.
    apply list_fmap_ext. intros _ attempt _.
    unfold tenacity.wait_exponential.
    rewrite (Z.max_r 0 min_wait) by done. by rewrite Z.min_comm.
  - intros H1 H2 H3. destruct (get_exhausted u s H1 H2 H3) as [e ->].
    apply after_three_sleeps.
Qed.

End FetchProperties.

(** With a transport that times out, answers 503 and then answers 200,
    [get] returns the page; with one that always answers 500 it raises. *)
Lemma get_at_most_three_attempts_witness :
  (@get Examples.flaky "https://learning.gov.et" initial_state).1
    = inr (mkResponse 200 "/course/1 /about") ∧
  (∃ e, (@get Examples.down "https://learning.gov.et" initial_state).1
          = inl (RetryError e)).
Proof.
  split.
  - apply (proj1 (proj2 (@get_at_most_three_attempts Examples.flaky
                           "https://learning.gov.et" initial_state))).
    + exact I.
    + vm_compute. discriminate.
    + split; [reflexivity | vm_compute; reflexivity].
  - apply (proj2 (proj2 (@get_at_most_three_attempts Examples.down
                           "https://learning.gov.et" initial_state)));
      vm_compute; discriminate.
Defined.

Lemma backoff_waits_witness :
  sleeps (@get Examples.down "https://learning.gov.et" initial_state).2 = [1; 2].
Proof.
  apply (proj2 (@backoff_waits Examples.down 1 1 8 3
                  "https://learning.gov.et" initial_state ltac:(lia)));
    vm_compute; discriminate.
Defined.

(** ** The all-sources run *)

Lemma run_all_loop (reg : Registry) (acc : list Course) (s : State) :
  for_M_with reg (λ '(key, adapter) all_courses,
    if String.eqb key "base" then mret all_courses
    else
      try_except
        (items ← to_list (iter_courses adapter);
         mret (all_courses ++ items))
        (λ e,
           logging_warning (display_name adapter +:+ ": " +:+ exn_str e);;
           mret all_courses)) acc s =
  match aggregate (λ k, String.eqb k "base") is_Exception reg s with
  | (inr more, s') => (inr (acc ++ more), s')
  | (inl e, s') => (inl e, s')
  end.
Proof.
  revert acc s. induction reg as [|[k a] rest IH]; intros acc s; simpl.
  - unfold mret, M_ret, ret. by rewrite app_nil_r.
  - unfold mbind, M_bind, bind at 1.
    destruct (String.eqb k "base").
    + unfold mret, M_ret, ret at 1. apply IH.
    + unfold try_except, mbind, M_bind, bind, mret, M_ret, ret, logging_warning.
      destruct (to_list (iter_courses a) s) as [[e|items] s1].
      * destruct (is_Exception e); [|done]. apply IH.
      * rewrite IH.
        destruct (aggregate _ _ rest s1) as [[e|more] s2]; [done|].
        by rewrite app_assoc.
Qed.

(** C1, as amended: [run_all] returns the concatenation, in registration
    order, of the lists of the adapters whose key is not [base] and whose
    [iter_courses] ends normally; an adapter that raises an exception
    derived from [Exception] gives nothing, is logged with its
    [display_name] and the message, and the adapters after it still run. *)
Theorem run_all_aggregates (reg : Registry) (s : State) :
  run_all reg s = aggregate (λ k, String.eqb k "base") is_Exception reg s.
Proof.
  unfold run_all. rewrite run_all_loop.
  by destruct (aggregate _ _ reg s) as [[e|more] s'].
Qed.

(** C1, as stated, fails: an adapter registered under the key [base] ends
    normally with one Course, and the all-sources run returns none. *)
Lemma run_all_skips_base_key :
  let reg := [("base", Examples.unnamed_adapter)] in
  (to_list (iter_courses Examples.unnamed_adapter) initial_state).1
    = inr [Course_ "https://x.example/c1" "Course 1" "https://x.example/c1" "Base"] ∧
  (run_all reg initial_state).1 = inr [] ∧
  run_all reg initial_state ≠ aggregate (λ _, false) (λ _, true) reg initial_state.
Proof.
  split; [reflexivity|]. split; [reflexivity|].
  intros E. apply (f_equal fst) in E. vm_compute in E. discriminate E.
Qed.

(** C6 at a failing input: the adapter's [is_allowed] returns [False];
    both runners still call its [iter_courses] and return its Course, and
    nothing records that the source was to be skipped. *)
Theorem runners_ignore_is_allowed :
  let reg := [("forbidden", Examples.forbidden_adapter)] in
  let c := Course_ "https://f.example/c1" "Course 1" "https://f.example/c1" "Forbidden" in
  (is_allowed Examples.forbidden_adapter initial_state).1 = inr false ∧
  run_all reg initial_state = (inr [c], initial_state) ∧
  run_one reg "forbidden" initial_state = (inr [c], initial_state).
Proof. repeat split. Qed.

(** ** What generators yield *)

Section Yielded.
Context (P : Course → Prop).

Lemma all_yielded_ret {A} (a : A) : all_yielded P (mret a : G A).
Proof. intros s. constructor. Qed.

Lemma all_yielded_yield c : P c → all_yielded P (yield c).
Proof. intros Hc s. by repeat constructor. Qed.

Lemma all_yielded_call {A} (m : M A) : all_yielded P (call m).
Proof. intros s. unfold yielded, call. destruct (m s). constructor. Qed.

Lemma all_yielded_attempt {A} (m : M A) : all_yielded P (attempt m).
Proof. apply all_yielded_call. Qed.

Lemma all_yielded_bind {A B} (g : G A) (k : A → G B) :
  all_yielded P g → (∀ a, all_yielded P (k a)) → all_yielded P (g ≫= k).
Proof.
  intros Hg Hk s. specialize (Hg s).
  unfold yielded, mbind, G_bind, gbind in *.
  destruct (g s) as [[ys [e|a]] s1]; simpl in *; [done|].
  specialize (Hk a s1). unfold yielded in Hk.
  destruct (k a s1) as [[ys' r] s2]; simpl in *.
  by apply Forall_app.
Qed.

Lemma all_yielded_for_each {X} (xs : list X) (body : X → G unit) :
  (∀ x, all_yielded P (body x)) → all_yielded P (for_each xs body).
Proof.
  intros Hb. induction xs as [|x xs IH]; simpl.
  - apply all_yielded_ret.
  - apply all_yielded_bind; auto.
Qed.

Lemma all_yielded_for_each_with {X L} (xs : list X) (body : X → L → G L) l :
  (∀ x l, all_yielded P (body x l)) → all_yielded P (for_each_with xs body l).
Proof.
  intros Hb. revert l. induction xs as [|x xs IH]; intros l; simpl.
  - apply all_yielded_ret.
  - apply all_yielded_bind; auto.
Qed.

End Yielded.

Lemma resolve_nonempty base href : href ≠ "" → resolve base href ≠ "".
Proof.
  unfold resolve. intros Hh. destruct (startswith href "/"); [|done].
  destruct base; simpl; [done|discriminate].
Qed.

Section AdapterProperties.
Context `{Collaborators}.

Lemma all_yielded_anchor_body P base keep mk a :
  (∀ href title, href ≠ "" → P (mk href title)) →
  all_yielded P (anchor_body base keep mk a).
Proof.
  intros Hmk. unfold anchor_body.
  destruct (tag_href a) as [[|c href]|]; try apply all_yielded_ret.
  destruct (keep _); [|apply all_yielded_ret].
  apply all_yielded_yield, Hmk. by apply resolve_nonempty.
Qed.

Lemma all_yielded_scan_base_page P guarded base keep mk :
  (∀ href title, href ≠ "" → P (mk href title)) →
  all_yielded P (scan_base_page guarded base keep mk).
Proof.
  intros Hmk. unfold scan_base_page. destruct guarded.
  - apply all_yielded_bind; [apply all_yielded_attempt|].
    intros [e|page]; [apply all_yielded_ret|].
    apply all_yielded_for_each. intros a. by apply all_yielded_anchor_body.
  - apply all_yielded_bind; [apply all_yielded_call|].
    intros page.
    apply all_yielded_for_each. intros a. by apply all_yielded_anchor_body.
Qed.

Lemma LearningGov_stamped : stamped LearningGovAdapter.
Proof.
  unfold stamped, LearningGovAdapter; cbn [iter_courses display_name].
  apply all_yielded_bind; [apply all_yielded_call|]. intros page.
  destruct (sorted_links _) as [e|hrefs]; [apply all_yielded_call|].
  apply all_yielded_for_each. unfold LearningGov_visit.
  intros [[|c href]|]; try apply all_yielded_ret.
  destruct (re_search_I _ _); [|apply all_yielded_ret].
  apply all_yielded_bind; [apply all_yielded_attempt|].
  intros [e|csoup]; [apply all_yielded_ret|].
  apply all_yielded_yield. split; [done|]. by apply resolve_nonempty.
Qed.

Lemma LearnEthiopia_stamped : stamped LearnEthiopiaAdapter.
Proof.
  unfold stamped, LearnEthiopiaAdapter; cbn [iter_courses display_name].
  apply all_yielded_bind; [|intros; apply all_yielded_ret].
  apply all_yielded_for_each_with. intros u seen.
  apply all_yielded_bind; [apply all_yielded_attempt|].
  intros [e|page]; [apply all_yielded_ret|].
  apply all_yielded_for_each_with. intros a seen'.
  destruct (tag_href a) as [[|c href]|]; try apply all_yielded_ret.
  destruct (_ || _); [apply all_yielded_ret|].
  destruct (re_search_I _ _); [|apply all_yielded_ret].
  apply all_yielded_bind; [apply all_yielded_attempt|]. intros r.
  apply all_yielded_bind; [|intros; apply all_yielded_ret].
  apply all_yielded_yield. split; [done|]. by apply resolve_nonempty.
Qed.

Lemma ELearnETH_stamped : stamped ELearnETHAdapter.
Proof.
  unfold stamped, ELearnETHAdapter; cbn [iter_courses display_name].
  apply all_yielded_for_each. intros u.
  apply all_yielded_bind; [apply all_yielded_attempt|].
  intros [e|page]; [apply all_yielded_ret|].
  apply all_yielded_for_each. intros a.
  apply all_yielded_anchor_body. intros href title Hh. by split.
Qed.

Ltac scan_stamped :=
  unfold stamped; cbn [iter_courses display_name snd];
  apply all_yielded_scan_base_page; intros href title Hh; by split.

Ltac stub_stamped := unfold stamped; cbn [iter_courses display_name snd]; apply all_yielded_ret.

Lemma ADAPTERS_eq :
  ADAPTERS =
  [ ("learninggov", LearningGovAdapter); ("learnethiopia", LearnEthiopiaAdapter);
    ("eduhubplc", EduHubAdapter); ("alx", ALXAdapter);
    ("smartethio", SmartEthioAdapter); ("afriwork", AfriworkAdapter);
    ("kubaya", KubayaAdapter); ("staffordglobal", StaffordAdapter);
    ("elearneth", ELearnETHAdapter); ("aau", AAUAdapter);
    ("aau_elearnafrica", AAUElearnAfricaAdapter); ("stmarys", StMarysAdapter);
    ("ili", ILIAdapter); ("infonet", InfonetAdapter);
    ("microlink", MicrolinkAdapter); ("ennlite", EnnliteAdapter);
    ("gxcamp", GxCampAdapter); ("learnup", LearnUpAdapter);
    ("5mec", FiveMillionCodersAdapter); ("hagerly", HagerlyAdapter);
    ("haleta", HaletaAdapter); ("zementechnologies", ZemenTechAdapter) ].
Proof. reflexivity. Qed.

(** C3: every Course yielded by the [iter_courses] of a registered adapter
    carries that adapter's [display_name] as [provider] and a non-empty
    [url]. *)
Theorem provider_is_display_name_and_url_nonempty :
  Forall (λ entry : string * Adapter,
            ∀ s, Forall (λ r, provider r = Some (display_name entry.2) ∧ url r ≠ "")
                        (yielded (iter_courses entry.2) s))
         ADAPTERS.
Proof.
  rewrite ADAPTERS_eq.
  repeat (apply Forall_cons; split;
          [first [ apply LearningGov_stamped | apply LearnEthiopia_stamped
                 | apply ELearnETH_stamped | scan_stamped | stub_stamped ]|]).
  constructor.
Qed.

End AdapterProperties.

(** ** Order and multiplicity of what Learning.gov.et yields *)

Lemma sublist_StronglySorted {A} (R : relation A) (l1 l2 : list A) :
  l1 `sublist_of` l2 → StronglySorted R l2 → StronglySorted R l1.
Proof.
  induction 1 as [|x l1 l2 Hsub IH|x l1 l2 Hsub IH];
    rewrite ?StronglySorted_cons; [done|..].
  - intros [Hx Hl]. split; [|auto].
    apply Forall_forall. intros y Hy.
    eapply Forall_forall in Hx; [done|]. by eapply sublist_subseteq.
  - intros [_ Hl]. auto.
Qed.

Lemma NoDup_omap_id {A} (l : list (option A)) : NoDup l → NoDup (omap id l).
Proof.
  induction 1 as [|[a|] l Hx Hl IH]; simpl; [constructor| |done].
  constructor; [|done]. rewrite list_elem_of_omap.
  intros ([b|] & Hb & E); simplify_eq/=. done.
Qed.

Lemma str_le_ne_lt (a b : string) : String.le a b → a ≠ b → str_lt a b.
Proof.
  unfold String.le, str_lt, String.leb, String.ltb. intros Hle Hne.
  destruct (String.compare a b) eqn:E; [|done|done].
  by apply String.compare_eq_iff in E.
Qed.

Lemma sorted_strict (l : list string) :
  StronglySorted String.le l → NoDup l → StronglySorted str_lt l.
Proof.
  induction 1 as [|x l Hl IH Hx]; intros Hnd; [constructor|].
  apply NoDup_cons in Hnd as [Hx' Hnd]. constructor; [auto|].
  apply Forall_forall. intros y Hy. apply str_le_ne_lt.
  - eapply Forall_forall in Hx; done.
  - intros ->. done.
Qed.

Lemma yielded_bind {A B} (g : G A) (k : A → G B) (s : State) :
  yielded (g ≫= k) s =
  match g s with
  | ((ys, inr a), s1) => ys ++ yielded (k a) s1
  | ((ys, inl _), _) => ys
  end.
Proof.
  unfold yielded, mbind, G_bind, gbind.
  destruct (g s) as [[ys [e|a]] s1]; [done|].
  by destruct (k a s1) as [[ys' r] s2].
Qed.

Section LearningGovOrder.
Context `{Collaborators}.

Local Abbreviation base := "https://learning.gov.et".
Local Abbreviation visit := (LearningGov_visit base "Learning.gov.et").

(** One link gives no Course or one, located at the resolved link. *)
Lemma visit_yields (h : string) (s : State) :
  ∃ ys r s1, visit (Some h) s = ((ys, r), s1) ∧
    (ys = [] ∨ ∃ c, ys = [c] ∧ url c = resolve base h).
Proof.
  unfold LearningGov_visit. destruct h as [|c h]; [by eexists _, _, _; eauto|].
  destruct (re_search_I _ _); [|by eexists _, _, _; eauto].
  unfold mbind, G_bind, gbind, attempt, call.
  destruct (try_except _ _ s) as [[e|[e|csoup]] s1]; simpl;
    eexists _, _, _; (split; [reflexivity|]); eauto.
Qed.

Lemma visit_all_yields (l : list string) (s : State) :
  ∃ hs, hs `sublist_of` l ∧
    url <$> yielded (for_each (Some <$> l) visit) s = resolve base <$> hs.
Proof.
  revert s. induction l as [|h l IH]; intros s.
  - exists []. done.
  - rewrite fmap_cons. cbn [for_each]. rewrite yielded_bind.
    destruct (visit_yields h s) as (ys & r & s1 & -> & Hys).
    destruct r as [e|[]].
    + destruct Hys as [->|(c & -> & Hc)].
      * exists []. split; [apply sublist_nil_l|done].
      * exists [h]. split; [|by rewrite !fmap_cons, Hc].
        apply sublist_skip, sublist_nil_l.
    + destruct (IH s1) as (hs & Hsub & Hurl).
      destruct Hys as [->|(c & -> & Hc)].
      * exists hs. split; [by apply sublist_cons|]. by rewrite app_nil_l.
      * exists (h :: hs). split; [by apply sublist_skip|].
        by rewrite fmap_app, Hurl, !fmap_cons, Hc.
Qed.

(** C10: once the homepage is fetched, the Courses yielded by
    [LearningGovAdapter.iter_courses] are located at the resolved forms of
    raw hrefs of the page taken in strictly ascending order: no raw href
    gives more than one Course, and the Courses follow the order of the
    raw hrefs. *)
Theorem LearningGov_one_per_href_in_order (s : State) (page : string) (s1 : State) :
  soup base s = (inr page, s1) →
  ∃ hrefs : list string,
    url <$> yielded (iter_courses LearningGovAdapter) s = resolve base <$> hrefs ∧
    StronglySorted str_lt hrefs ∧
    NoDup hrefs ∧
    ∀ h, h ∈ hrefs → ∃ a, a ∈ soup_select page "a[href]" ∧ tag_href a = Some h.
Proof.
  intros Hpage. unfold LearningGovAdapter. cbn [iter_courses].
  rewrite yielded_bind. unfold call at 1. rewrite Hpage.
  rewrite app_nil_l.
  set (links := list_to_set (tag_href <$> soup_select page "a[href]")
                : gset (option string)).
  unfold sorted_links.
  destruct (bool_decide (None ∈ links)).
  { exists []. repeat split; [|constructor|constructor|by intros ? ?%elem_of_nil].
    destruct (bool_decide (size links = 1%nat)); [|done].
    cbn [for_each]. rewrite yielded_bind. done. }
  set (l := merge_sort String.le (omap id (elements links))).
  destruct (visit_all_yields l s1) as (hs & Hsub & Hurl).
  assert (NoDup l) as Hnd.
  { unfold l. rewrite merge_sort_Permutation.
    apply NoDup_omap_id, NoDup_elements. }
  assert (StronglySorted str_lt l) as Hsorted.
  { apply sorted_strict; [|done]. apply StronglySorted_merge_sort; apply _. }
  exists hs. split; [done|]. split; [by eapply sublist_StronglySorted|].
  split; [by eapply sublist_NoDup|].
  intros h Hh. eapply sublist_subseteq in Hh; [|done].
  unfold l in Hh. rewrite merge_sort_Permutation in Hh.
  apply list_elem_of_omap in Hh as (o & Ho & E). simpl in E. subst o.
  apply elem_of_elements, elem_of_list_to_set, list_elem_of_fmap in Ho
    as (a & E & Ha).
  by exists a.
Qed.

End LearningGovOrder.

(** ** A base page that cannot be fetched *)

Section BaseFailure.
Context `{Collaborators}.

Lemma soup_unreachable (u : string) (s : State) :
  unreachable u → ∃ e, soup u s = (inl (RetryError e), after_three u s).
Proof.
  intros Hu. destruct (get_unreachable u s Hu) as [e He].
  exists e. unfold soup, mbind, M_bind, bind. by rewrite He.
Qed.

(** Without the guard the error of the fetch escapes the generator. *)
Lemma unguarded_scan_raises base keep mk (s : State) :
  unreachable base →
  ∃ e, scan_base_page false base keep mk s
       = (([], inl (RetryError e)), after_three base s).
Proof.
  intros Hu. destruct (soup_unreachable base s Hu) as [e He].
  exists e. unfold scan_base_page, mbind, G_bind, gbind, call. by rewrite He.
Qed.

(** With the guard the generator ends at once and yields nothing. *)
Lemma guarded_scan_empty base keep mk (s : State) :
  unreachable base →
  scan_base_page true base keep mk s = (([], inr tt), after_three base s).
Proof.
  intros Hu. destruct (soup_unreachable base s Hu) as [e He].
  unfold scan_base_page, attempt, mbind, G_bind, gbind, call, try_except.
  unfold mbind, M_bind, bind. by rewrite He.
Qed.

Lemma LearningGov_raises (s : State) :
  unreachable "https://learning.gov.et" →
  ∃ e, iter_courses LearningGovAdapter s
       = (([], inl (RetryError e)), after_three "https://learning.gov.et" s).
Proof.
  intros Hu. destruct (soup_unreachable _ s Hu) as [e He].
  exists e. unfold LearningGovAdapter. cbn [iter_courses].
  unfold mbind, G_bind, gbind, call. by rewrite He.
Qed.

End BaseFailure.

(** C7 at a failing input: every request is answered with status 500.
    The fetch of the base page of Learning.gov.et is given up after three
    attempts and the [RetryError] escapes [iter_courses], from which
    [list()] and [run_one] pass it on; SmartEthio, whose fetch is guarded,
    ends normally with nothing yielded. *)
Theorem LearningGov_base_failure_escapes :
  @unreachable Examples.down "https://learning.gov.et" ∧
  (iter_courses (@LearningGovAdapter Examples.down) initial_state).1
    = ([], inl (RetryError (ScrapeError "GET https://learning.gov.et -> 500"))) ∧
  (run_one (@ADAPTERS Examples.down) "learninggov" initial_state).1
    = inl (RetryError (ScrapeError "GET https://learning.gov.et -> 500")) ∧
  (iter_courses (@SmartEthioAdapter Examples.down) initial_state).1 = ([], inr tt).
Proof.
  split; [|split; [|split]].
  - intros history. unfold attempt_fails. simpl. lia.
  - vm_compute. reflexivity.
  - vm_compute. reflexivity.
  - vm_compute. reflexivity.
Qed.

(** ** The command line *)

Lemma truthy_Some (o : option string) :
  truthy o = true → ∃ k, o = Some k ∧ k ≠ "".
Proof. destruct o as [[|c k]|]; [done| |done]. intros _. by eexists. Qed.

(** C4, as amended: without [--list-sites], an invocation that passes a
    non-empty [--site] value together with [--all], or neither of them, or
    a non-empty [--site] value that is no key of the registry, ends in
    [SystemExit] with a message, and the state is untouched: no request
    was made, no file or directory written, nothing printed. *)
Theorem fatal_invocations_exit_early (reg : Registry) (args : Args) (s : State) :
  fatal reg args →
  ∃ msg, msg ≠ "" ∧ main reg args s = (inl (SystemExit msg), s).
Proof.
  intros [Hl [[Hs Ha]|[[Hs Ha]|(k & Hs & Hk & Ha & Hget)]]];
    unfold main; rewrite Hl.
  - rewrite Hs, Ha. simpl. eexists. split; [|reflexivity]. done.
  - rewrite Hs, Ha. simpl. eexists. split; [|reflexivity]. done.
  - rewrite Hs, Ha. destruct k as [|c k]; [done|]. simpl.
    unfold run_one, mbind, M_bind, bind. simpl default. rewrite Hget.
    eexists. split; [|reflexivity]. done.
Qed.

(** C4, as stated, fails: with [--list-sites] an invocation that passes
    both [--site] and [--all] lists the sites and returns normally, and an
    empty [--site] value together with [--all] starts the all-sources run. *)
Lemma fatal_as_stated_not_always_fatal :
  ¬ (∀ (reg : Registry) (args : Args) (s : State),
       fatal_as_stated reg args →
       ∃ msg, main reg args s = (inl (SystemExit msg), s)).
Proof.
  intros Hclaim.
  destruct (Hclaim [] (mkArgs (Some "learninggov") true "data/courses.csv" true)
              initial_state) as [msg Hmsg].
  - left. split; [by eexists|done].
  - apply (f_equal fst) in Hmsg. vm_compute in Hmsg. discriminate Hmsg.
Qed.

(** ** Reading back what the csv writer wrote *)

Module RoundTrip.
Import csv csv_reader.

Lemma special_false (c : ascii) :
  special c = false →
  Ascii.eqb c COMMA = false ∧ Ascii.eqb c QUOTE = false ∧ is_newline c = false.
Proof.
  unfold special, is_newline. intros Hs.
  repeat (apply orb_false_elim in Hs as [Hs ?]).
  repeat split; try done. by apply orb_false_intro.
Qed.

Lemma line_ends_not_newline (c : ascii) (rest : list ascii) :
  is_newline c = false → line_ends c rest = false.
Proof.
  unfold is_newline, line_ends. intros Hn.
  apply orb_false_elim in Hn as [-> ->]. done.
Qed.

(** The flag [midline] is read at the end of the input only. *)
Lemma read_midline r rows ml ml' c cs :
  read r rows ml (c :: cs) = read r rows ml' (c :: cs).
Proof. done. Qed.

Lemma read_step r rows ml c cs r1 :
  process_char r c = inr r1 → line_ends c cs = false →
  read r rows ml (c :: cs) = read r1 rows true cs.
Proof. intros E L. simpl. by rewrite E, L. Qed.

(** A record that starts with an ordinary character starts a field. *)
Lemma read_start_record fld flds rows ml c cs :
  is_newline c = false →
  read (mkReader START_RECORD fld flds) rows ml (c :: cs) =
  read (mkReader START_FIELD fld flds) rows ml (c :: cs).
Proof.
  intros Hc. simpl. unfold process_char. simpl. rewrite Hc. done.
Qed.

(** The rest of an unquoted field. *)
Lemma read_unquoted f : ∀ fld flds rows ml d rest,
  existsb special f = false →
  read (mkReader IN_FIELD fld flds) rows ml (f ++ d :: rest) =
  read (mkReader IN_FIELD (rev f ++ fld) flds) rows true (d :: rest).
Proof.
  induction f as [|c f IH]; intros fld flds rows ml d rest Hf; [done|].
  simpl in Hf. apply orb_false_elim in Hf as [Hc Hf].
  destruct (special_false c Hc) as (Hcomma & Hquote & Hnl).
  rewrite <- app_comm_cons.
  rewrite (read_step _ _ _ _ _ (mkReader IN_FIELD (c :: fld) flds)).
  - rewrite IH by done. simpl. by rewrite <- app_assoc.
  - unfold process_char. simpl. by rewrite Hnl, Hcomma.
  - by apply line_ends_not_newline.
Qed.

(** The body of a quoted field, up to and including the closing quote. *)
Lemma read_quoted f : ∀ fld flds rows ml rest,
  read (mkReader IN_QUOTED_FIELD fld flds) rows ml
       (join_append_data f ++ QUOTE :: rest) =
  read (mkReader QUOTE_IN_QUOTED_FIELD (rev f ++ fld) flds) rows true rest.
Proof.
  induction f as [|c f IH]; intros fld flds rows ml rest; [done|].
  simpl join_append_data. destruct (Ascii.eqb c QUOTE) eqn:Hq.
  - apply Ascii.eqb_eq in Hq as ->.
    change (read (mkReader IN_QUOTED_FIELD fld flds) rows ml
              (QUOTE :: QUOTE :: (join_append_data f ++ QUOTE :: rest)) =
            read (mkReader QUOTE_IN_QUOTED_FIELD (rev (QUOTE :: f) ++ fld) flds)
              rows true rest).
    rewrite (read_step _ _ _ _ _ (mkReader QUOTE_IN_QUOTED_FIELD fld flds))
      by done.
    rewrite (read_step _ _ _ _ _ (mkReader IN_QUOTED_FIELD (QUOTE :: fld) flds))
      by done.
    rewrite IH. simpl. by rewrite <- app_assoc.
  - rewrite <- app_comm_cons.
    cbn [read]. unfold process_char; cbn [state]; rewrite Hq.
    unfold end_line, process_eol, parse_add_char; cbn [state field fields is_START_RECORD].
    destruct (line_ends c _); rewrite IH; simpl; by rewrite <- app_assoc.
Qed.

Lemma read_field f flds rows ml d rest :
  ∃ r, holds f flds r ∧
    read (mkReader START_FIELD [] flds) rows ml (join_append f ++ d :: rest) =
    read r rows true (d :: rest).
Proof.
  unfold join_append. destruct (existsb special f) eqn:Hf.
  - exists (mkReader QUOTE_IN_QUOTED_FIELD (rev f ++ []) flds). split.
    + repeat split. simpl. by rewrite app_nil_r, rev_involutive.
    + rewrite <- app_comm_cons, <- app_assoc.
      rewrite (read_step _ _ _ _ _ (mkReader IN_QUOTED_FIELD [] flds)) by done.
      apply read_quoted.
  - destruct f as [|c f].
    + exists (mkReader START_FIELD [] flds). by repeat split.
    + simpl in Hf. apply orb_false_elim in Hf as [Hc Hf].
      destruct (special_false c Hc) as (Hcomma & Hquote & Hnl).
      exists (mkReader IN_FIELD (rev f ++ [c]) flds). split.
      * repeat split. simpl. by rewrite rev_app_distr, rev_involutive.
      * rewrite <- app_comm_cons.
        rewrite (read_step _ _ _ _ _ (mkReader IN_FIELD [c] flds)).
        -- by apply read_unquoted.
        -- unfold process_char. simpl. by rewrite Hnl, Hquote, Hcomma.
        -- by apply line_ends_not_newline.
Qed.

(** The fields of one row, then the line terminator. *)
Lemma read_row fs : fs ≠ [] → ∀ flds rows ml rest,
  read (mkReader START_FIELD [] flds) rows ml (join fs ++ CR :: LF :: rest) =
  read parse_reset ((rev flds ++ (string_of_list_ascii <$> fs)) :: rows) false rest.
Proof.
  induction fs as [|f fs IH]; [done|]. intros _ flds rows ml rest.
  destruct fs as [|f2 fs].
  - cbn [join].
    destruct (read_field f flds rows ml CR (LF :: rest))
      as (r & (Hflds & Hfld & _ & Hcr) & ->).
    rewrite (read_step _ _ _ _ _ _ Hcr) by done.
    cbn [read]. simpl. by rewrite Hflds, Hfld.
  - change (join (f :: f2 :: fs)) with (join_append f ++ COMMA :: join (f2 :: fs)).
    rewrite <- app_assoc, <- app_comm_cons.
    destruct (read_field f flds rows ml COMMA (join (f2 :: fs) ++ CR :: LF :: rest))
      as (r & (Hflds & Hfld & Hcomma & _) & ->).
    rewrite (read_step _ _ _ _ _ _ Hcomma) by done.
    unfold parse_save_field. rewrite Hflds, Hfld.
    rewrite IH by done. simpl. by rewrite <- app_assoc.
Qed.

(** A row never starts with a line-end character. *)
Lemma row_starts fs rest :
  fs ≠ [] → fs ≠ [ [] ] →
  ∃ c cs, join fs ++ CR :: LF :: rest = c :: cs ∧ is_newline c = false.
Proof.
  intros Hne Hne1. destruct fs as [|f fs]; [done|].
  assert (∀ tail, (f ≠ [] ∨ ∃ t, tail = COMMA :: t) →
            ∃ c cs, join_append f ++ tail = c :: cs ∧ is_newline c = false) as Hf.
  { intros tail Hor. unfold join_append. destruct (existsb special f) eqn:Hs.
    - by eexists _, _.
    - destruct f as [|c f].
      + destruct Hor as [|[t ->]]; [done|]. by eexists _, _.
      + simpl in Hs. apply orb_false_elim in Hs as [Hc _].
        destruct (special_false c Hc) as (_ & _ & Hnl). by eexists _, _. }
  destruct fs as [|f2 fs].
  - cbn [join]. apply Hf. left. by intros ->.
  - change (join (f :: f2 :: fs)) with (join_append f ++ COMMA :: join (f2 :: fs)).
    rewrite <- app_assoc, <- app_comm_cons. apply Hf. right. by eexists.
Qed.

Lemma read_record fs rows rest :
  read parse_reset rows false (writerow_chars fs ++ rest) =
  read parse_reset ((string_of_list_ascii <$> fs) :: rows) false rest.
Proof.
  destruct (decide (fs = [])) as [->|Hne]; [done|].
  destruct (decide (fs = [ [] ])) as [->|Hne1]; [done|].
  assert (writerow_chars fs = join fs ++ [CR; LF]) as ->.
  { destruct fs as [|[|c f] [|f2 fs]]; done. }
  rewrite <- app_assoc. simpl app at 2.
  destruct (row_starts fs rest Hne Hne1) as (c & cs & E & Hc).
  pose proof (read_row fs Hne [] rows false rest) as Hrow.
  rewrite E in *. unfold parse_reset at 1.
  by rewrite read_start_record.
Qed.

Lemma read_records (rows : list (list (list ascii))) acc :
  read parse_reset acc false (concat (writerow_chars <$> rows)) =
  inr (rev acc ++ ((λ fs : list (list ascii), string_of_list_ascii <$> fs) <$> rows)).
Proof.
  revert acc. induction rows as [|fs rows IH]; intros acc.
  - simpl. by rewrite app_nil_r.
  - rewrite fmap_cons. simpl concat. rewrite read_record, IH.
    simpl. by rewrite <- app_assoc.
Qed.

End RoundTrip.

(** ** The sink *)

Lemma string_app_assoc (a b c : string) : (a +:+ b) +:+ c = a +:+ (b +:+ c).
Proof.
  induction a as [|x a IH]; [done|].
  change (String x ((a +:+ b) +:+ c) = String x (a +:+ (b +:+ c))).
  by rewrite IH.
Qed.

Lemma list_ascii_of_string_app (a b : string) :
  list_ascii_of_string (a +:+ b) = list_ascii_of_string a ++ list_ascii_of_string b.
Proof.
  induction a as [|x a IH]; [done|].
  change (x :: list_ascii_of_string (a +:+ b)
          = x :: (list_ascii_of_string a ++ list_ascii_of_string b)).
  by rewrite IH.
Qed.

Lemma table_text_chars (rows : list (list string)) :
  list_ascii_of_string (table_text rows) =
  concat (csv.writerow_chars <$>
            ((λ row : list string, list_ascii_of_string <$> row) <$> rows)).
Proof.
  unfold table_text. induction rows as [|row rows IH]; [done|].
  rewrite !fmap_cons. simpl foldr. simpl concat.
  rewrite list_ascii_of_string_app, IH. f_equal.
  unfold csv.writerow_text. apply list_ascii_of_string_of_list_ascii.
Qed.

(** Reading back the text of a table gives its rows. *)
Lemma csv_round_trip (rows : list (list string)) :
  csv_reader.read_text (table_text rows) = inr rows.
Proof.
  unfold csv_reader.read_text. rewrite table_text_chars, RoundTrip.read_records.
  simpl. f_equal. rewrite <- list_fmap_compose.
  rewrite <- (list_fmap_id rows) at 2. apply list_fmap_ext. intros _ row _.
  simpl. rewrite <- list_fmap_compose.
  rewrite <- (list_fmap_id row) at 2. apply list_fmap_ext. intros _ f _.
  simpl. apply string_of_list_ascii_of_string.
Qed.

Lemma course_dict_built (c : Course) (s : State) :
  for_M_with FIELDS (λ k (d : gmap string csv.pyval),
      v ← getattr c k; mret (<[k := v]> d)) ∅ s
  = (inr (course_dict c), s).
Proof. reflexivity. Qed.

Lemma writerow_course (path : string) (c : Course) (s : State) :
  DictWriter_writerow path FIELDS (course_dict c) s
  = file_write path (csv.writerow_text (course_row c)) s.
Proof.
  unfold DictWriter_writerow.
  assert (bool_decide (dom (course_dict c) ⊆ (list_to_set FIELDS : gset string)) = true)
    as -> by (vm_compute; reflexivity).
  assert ((csv.field_text <$>
             ((λ k, default (csv.VStr "") (course_dict c !! k)) <$> FIELDS))
          = course_row c) as -> by (vm_compute; reflexivity).
  done.
Qed.

Lemma writeheader_FIELDS (path : string) (s : State) :
  DictWriter_writeheader path FIELDS s
  = file_write path (csv.writerow_text FIELDS) s.
Proof.
  unfold DictWriter_writeheader, DictWriter_writerow.
  assert (bool_decide (dom (list_to_map ((λ k, (k, csv.VStr k)) <$> FIELDS)
                             : gmap string csv.pyval)
                         ⊆ (list_to_set FIELDS : gset string)) = true)
    as -> by (vm_compute; reflexivity).
  assert ((csv.field_text <$>
             ((λ k, default (csv.VStr "")
                      ((list_to_map ((λ k, (k, csv.VStr k)) <$> FIELDS)
                         : gmap string csv.pyval) !! k)) <$> FIELDS))
          = FIELDS) as -> by (vm_compute; reflexivity).
  done.
Qed.

Lemma file_write_content (path data pre : string) (s : State) :
  files (fs s) !! path = Some pre →
  files (fs (file_write path data s).2) !! path = Some (pre +:+ data).
Proof. intros Hpre. simpl. rewrite Hpre. apply lookup_insert_eq. Qed.

Lemma write_rows (path : string) (rows : list Course) : ∀ (s : State) (pre : string),
  files (fs s) !! path = Some pre →
  ∃ s', for_M rows (λ c,
          rowdict ← for_M_with FIELDS (λ k (d : gmap string csv.pyval),
                       v ← getattr c k; mret (<[k := v]> d)) ∅;
          DictWriter_writerow path FIELDS rowdict) s = (inr tt, s') ∧
        files (fs s') !! path = Some (pre +:+ table_text (course_row <$> rows)).
Proof.
  induction rows as [|c rows IH]; intros s pre Hpre.
  - exists s. split; [done|]. unfold table_text. simpl.
    replace (pre +:+ "") with pre; [done|].
    clear. induction pre as [|x pre IH]; [done|].
    change (String x pre = String x (pre +:+ "")). by rewrite <- IH.
  - cbn [for_M]. unfold mbind at 1, M_bind at 1, bind at 1.
    unfold mbind at 1, M_bind at 1, bind at 1.
    rewrite course_dict_built, writerow_course.
    destruct (IH (file_write path (csv.writerow_text (course_row c)) s).2
                (pre +:+ csv.writerow_text (course_row c))) as (s' & Hrun & Hfile).
    { by apply file_write_content. }
    exists s'. split; [exact Hrun|].
    rewrite Hfile. f_equal. rewrite fmap_cons. unfold table_text. simpl.
    by rewrite string_app_assoc.
Qed.

(** C8: when [write_csv] returns, the file holds the header line whose
    columns are [FIELDS], in that order, then one line per Course in the
    order of the input, an absent field written as the empty string; and
    reading the file back with the csv reader gives those rows, field for
    field. *)
Theorem write_csv_round_trip (rows : list Course) (out_path : string) (s s' : State) :
  write_csv rows out_path s = (inr tt, s') →
  files (fs s') !! out_path = Some (table_text (FIELDS :: (course_row <$> rows))) ∧
  read_csv out_path s' = Some (inr (FIELDS :: (course_row <$> rows))).
Proof.
  intros Hrun.
  assert (files (fs s') !! out_path
          = Some (table_text (FIELDS :: (course_row <$> rows)))) as Hfile.
  { unfold write_csv in Hrun.
    unfold mbind at 1, M_bind at 1, bind at 1 in Hrun.
    destruct (os.makedirs _ _ s) as [[e|[]] s1]; [done|].
    unfold mbind at 1, M_bind at 1, bind at 1 in Hrun.
    destruct (open_w out_path s1) as [[e|[]] s2] eqn:Hopen; [done|].
    assert (files (fs s2) !! out_path = Some "") as Hempty.
    { unfold open_w in Hopen.
      repeat match type of Hopen with
             | (if ?b then _ else _) = _ => destruct b; [done|]
             end.
      injection Hopen as <-. simpl. apply lookup_insert_eq. }
    unfold mbind at 1, M_bind at 1, bind at 1 in Hrun.
    rewrite writeheader_FIELDS in Hrun.
    pose proof (file_write_content out_path (csv.writerow_text FIELDS) "" s2 Hempty)
      as Hheader.
    destruct (file_write out_path (csv.writerow_text FIELDS) s2) as [r s3] eqn:Hw.
    assert (r = inr tt) as -> by (unfold file_write in Hw; congruence).
    simpl in Hheader.
    destruct (write_rows out_path rows s3 _ Hheader) as (s4 & Hrows & Hfile).
    rewrite Hrows in Hrun. injection Hrun as <-.
    rewrite Hfile. done. }
  split; [exact Hfile|].
  unfold read_csv. rewrite Hfile. simpl. by rewrite csv_round_trip.
Qed.

(** C9 at a failing input: for the path [courses.csv], which has no
    directory part, [os.path.dirname] is the empty string, [os.makedirs]
    of it raises [FileNotFoundError], and [write_csv] ends there: nothing
    is written, whatever the rows and the state. *)
Theorem write_csv_bare_filename_fails (rows : list Course) (s : State) :
  os.path_dirname "courses.csv" = "" ∧
  write_csv rows "courses.csv" s = (inl (FileNotFoundError ""), s).
Proof. split; reflexivity. Qed.

(** ** The theorems at concrete inputs *)

Lemma fatal_invocations_exit_early_witness :
  ∃ msg, msg ≠ "" ∧
    main (@ADAPTERS Examples.down)
         (mkArgs (Some "nosuchsite") false "data/courses.csv" false) initial_state
    = (inl (SystemExit msg), initial_state).
Proof.
  apply fatal_invocations_exit_early.
  split; [reflexivity|]. right. right.
  exists "nosuchsite".
  split; [reflexivity|]. split; [discriminate|]. split; [reflexivity|].
  vm_compute. reflexivity.
Defined.

Lemma write_csv_round_trip_witness :
  read_csv "data/courses.csv"
    (write_csv Examples.three_courses "data/courses.csv" initial_state).2
  = Some (inr (FIELDS :: (course_row <$> Examples.three_courses))).
Proof.
  apply (write_csv_round_trip Examples.three_courses "data/courses.csv"
           initial_state).
  vm_compute. reflexivity.
Defined.

Lemma LearningGov_one_per_href_in_order_witness :
  let base := "https://learning.gov.et" in
  let page := "/lesson/2 https://learning.gov.et/course/1 /course/1 /about" in
  ∃ hrefs : list string,
    url <$> yielded (iter_courses (@LearningGovAdapter (Examples.up base))) initial_state
      = resolve base <$> hrefs ∧
    StronglySorted str_lt hrefs ∧
    NoDup hrefs ∧
    ∀ h, h ∈ hrefs →
      ∃ a, a ∈ @soup_select (Examples.up base) page "a[href]" ∧ tag_href a = Some h.
Proof.
  intros base page.
  apply (@LearningGov_one_per_href_in_order (Examples.up base) initial_state page
           (requested base initial_state)).
  vm_compute. reflexivity.
Defined.

(** * Further properties of the code *)

(** ** The fetch primitive *)

Section MoreFetch.
Context `{Collaborators}.

Lemma attempts_result {A} (P : A → Prop) retry wait (fn : M A) :
  (∀ s r s', fn s = (inr r, s') → P r) →
  ∀ left a s r s',
    tenacity.attempts retry wait left a fn s = (inr r, s') → P r.
Proof.
  intros Hfn. induction left as [|left IH]; intros a s r s'; simpl;
    destruct (fn s) as [[e|r0] s1] eqn:E.
  - destruct (retry e); discriminate.
  - intros [= <- <-]. eauto.
  - destruct (retry e); [apply IH|discriminate].
  - intros [= <- <-]. eauto.
Qed.

(** X1: a response returned by [get] has a status below 400, whatever the
    transport did on the way. *)
Theorem get_returns_status_below_400 (u : string) (s : State) (r : Response) (s' : State) :
  get u s = (inr r, s') → status_code r < 400.
Proof.
  unfold get, tenacity.retry_decorator.
  apply (attempts_result (λ r, status_code r < 400)).
  clear. intros s r s'. rewrite get_body_eq.
  destruct (transport (requests s) u) as [r0|e]; [|discriminate].
  destruct (Z.leb_spec 400 (status_code r0)); [discriminate|].
  by intros [= <- <-].
Qed.

(** X2: an exception of the transport that is neither a
    [requests.RequestException] nor a [ScrapeError] is not retried: [get]
    raises it as it is after the one request, without waiting. *)
Theorem get_reraises_other_exceptions (u : string) (s : State) (e : exn) :
  transport (requests s) u = Raises e →
  tenacity.retry_if_exception_type e = false →
  get u s = (inl e, requested u s).
Proof.
  intros Ht He. unfold get, tenacity.retry_decorator.
  apply attempts_reraise; [|done]. by rewrite get_body_eq, Ht.
Qed.

(** X3: [get] only requests and waits: it requests the same URL one to
    three times, waits once between two requests (1 second, then 2), and
    leaves the log, the output and the files as they were. *)
Theorem get_only_requests_and_waits (u : string) (s : State) :
  ∃ n, (1 ≤ n ≤ 3)%nat ∧
    requests (get u s).2 = requests s ++ replicate n u ∧
    sleeps (get u s).2 = sleeps s ++ take (n - 1) [1; 2] ∧
    warnings (get u s).2 = warnings s ∧
    stdout (get u s).2 = stdout s ∧
    fs (get u s).2 = fs s.
Proof.
  destruct (attempts_trace tenacity.retry_if_exception_type
              (tenacity.wait_exponential 1 1 8) u 2 1 s)
    as (n & Hn & Hr & Hs & Hw & Ho & Hf).
  exists n. split; [lia|]. unfold get, tenacity.retry_decorator.
  change (3 - 1)%nat with 2%nat.
  split; [exact Hr|]. split; [|by repeat split].
  rewrite Hs. f_equal.
  assert (n = 1 ∨ n = 2 ∨ n = 3)%nat as [->|[->| ->]] by lia; reflexivity.
Qed.

End MoreFetch.

Lemma get_returns_status_below_400_witness :
  status_code (mkResponse 200 "/course/1 /about") < 400.
Proof.
  apply (@get_returns_status_below_400 Examples.flaky "https://learning.gov.et"
           initial_state _
           (after_three "https://learning.gov.et" initial_state)).
  vm_compute. reflexivity.
Defined.

Lemma get_reraises_other_exceptions_witness :
  @get MoreExamples.broken "https://learning.gov.et" initial_state
  = (inl (OtherException "unsupported argument"),
     requested "https://learning.gov.et" initial_state).
Proof.
  apply (@get_reraises_other_exceptions MoreExamples.broken); reflexivity.
Defined.

(** ** The registry *)

Lemma dict_get_set (k k' : string) (a : Adapter) (d : Registry) :
  dict_get k (dict_set k' a d) = if String.eqb k' k then Some a else dict_get k d.
Proof.
  induction d as [|[k0 a0] d IH]; simpl; [done|].
  destruct (String.eqb_spec k0 k') as [->|Hne]; simpl.
  - by destruct (String.eqb k' k).
  - rewrite IH. destruct (String.eqb_spec k0 k) as [->|?]; [|done].
    by destruct (String.eqb_spec k' k) as [->|?].
Qed.

Lemma dict_set_keys (k : string) (a : Adapter) (d : Registry) :
  (dict_set k a d).*1 = if bool_decide (k ∈ d.*1) then d.*1 else d.*1 ++ [k].
Proof.
  induction d as [|[k0 a0] d IH]; [done|]. cbn [dict_set].
  destruct (String.eqb_spec k0 k) as [->|Hne]; rewrite !fmap_cons; cbn [fst].
  - rewrite bool_decide_eq_true_2; [done|]. apply list_elem_of_here.
  - rewrite IH. destruct (decide (k ∈ d.*1)) as [Hin|Hout].
    + rewrite !bool_decide_eq_true_2; [done|by apply list_elem_of_further|done].
    + rewrite !bool_decide_eq_false_2; [done| |done].
      intros [?|?]%elem_of_cons; congruence.
Qed.

Lemma dict_set_entries (k : string) (a : Adapter) (d : Registry) (e : string * Adapter) :
  e ∈ dict_set k a d → e = (k, a) ∨ e ∈ d.
Proof.
  induction d as [|[k0 a0] d IH]; simpl.
  - intros ?%list_elem_of_singleton. by left.
  - destruct (String.eqb k0 k).
    + intros [->|?]%elem_of_cons; [by left|right; by apply list_elem_of_further].
    + intros [->|?]%elem_of_cons; [right; apply list_elem_of_here|].
      destruct IH as [?|?]; [done|by left|right; by apply list_elem_of_further].
Qed.

(** X4: after [register(cls)] the registry answers the key of the new
    instance with that instance, and every other key as before. *)
Theorem register_then_get (inst : Adapter) (d : Registry) (k : string) :
  dict_get k (register inst d) =
  if String.eqb (key inst) k then Some inst else dict_get k d.
Proof. apply dict_get_set. Qed.

(** X5: registering under a key the registry already holds keeps the keys
    and their order (the entry is replaced where it stands); a new key
    goes to the end. *)
Theorem register_keeps_order (inst : Adapter) (d : Registry) :
  (register inst d).*1 =
  if bool_decide (key inst ∈ d.*1) then d.*1 else d.*1 ++ [key inst].
Proof. apply dict_set_keys. Qed.

Lemma registered_snoc (insts : list Adapter) (inst : Adapter) :
  registered (insts ++ [inst]) = register inst (registered insts).
Proof. unfold registered. by rewrite foldl_app. Qed.

(** X6: in a registry built by registrations alone no key occurs twice,
    every entry stands under the key of its own instance, and a key is
    answered with the instance registered last under it. *)
Theorem registered_invariant (insts : list Adapter) :
  NoDup (registered insts).*1 ∧
  (∀ k a, (k, a) ∈ registered insts → key a = k) ∧
  (∀ k, dict_get k (registered insts)
        = last (filter (λ a, key a = k) insts)).
Proof.
  induction insts as [|inst insts IH] using rev_ind.
  - repeat split; [constructor|by intros ? ? ?%elem_of_nil].
  - destruct IH as (Hnd & Hkey & Hget). rewrite registered_snoc.
    split; [|split].
    + unfold register. rewrite dict_set_keys. case_bool_decide; [done|].
      apply NoDup_app. repeat split; [done| |apply NoDup_singleton].
      intros k Hk ->%list_elem_of_singleton. done.
    + intros k a [[= -> ->]|Hin]%dict_set_entries; [done|]. by apply Hkey.
    + intros k. unfold register. rewrite dict_get_set, filter_app, Hget.
      destruct (String.eqb_spec (key inst) k) as [<-|Hne].
      * rewrite filter_cons_True by done. rewrite filter_nil.
        by rewrite last_snoc.
      * rewrite filter_cons_False by done. rewrite filter_nil.
        by rewrite app_nil_r.
Qed.

(** ** The runners *)

Lemma run_all_fold (reg : Registry) (s : State) :
  run_all reg s = aggregate (λ k, String.eqb k "base") is_Exception reg s.
Proof.
  unfold run_all. rewrite run_all_loop.
  by destruct (aggregate _ _ reg s) as [[e|more] s'].
Qed.

Lemma aggregate_caught skip caught (reg : Registry) (s : State) (e : exn) (s' : State) :
  aggregate skip caught reg s = (inl e, s') → caught e = false.
Proof.
  revert s. induction reg as [|[k a] reg IH]; intros s; simpl; [done|].
  destruct (skip k); [apply IH|].
  destruct (to_list (iter_courses a) s) as [[e0|items] s1].
  - destruct (caught e0) eqn:Hc; [apply IH|]. by intros [= <- <-].
  - destruct (aggregate skip caught reg s1) as [[e1|more] s2] eqn:E; [|done].
    intros [= <- <-]. by eapply IH.
Qed.

(** X7: no exception derived from [Exception] leaves [run_all]: what it
    raises, if anything, is a [SystemExit] or a [KeyboardInterrupt] that
    came out of an adapter. *)
Theorem run_all_holds_back_Exceptions (reg : Registry) (s : State) (e : exn) (s' : State) :
  run_all reg s = (inl e, s') → is_Exception e = false.
Proof. rewrite run_all_fold. apply aggregate_caught. Qed.

Lemma aggregate_app skip caught (reg1 reg2 : Registry) (s : State) :
  aggregate skip caught (reg1 ++ reg2) s =
  match aggregate skip caught reg1 s with
  | (inr cs1, s1) =>
      match aggregate skip caught reg2 s1 with
      | (inr cs2, s2) => (inr (cs1 ++ cs2), s2)
      | (inl e, s2) => (inl e, s2)
      end
  | (inl e, s1) => (inl e, s1)
  end.
Proof.
  revert s. induction reg1 as [|[k a] reg1 IH]; intros s; simpl.
  - by destruct (aggregate skip caught reg2 s) as [[e|cs2] s2].
  - destruct (skip k); [apply IH|].
    destruct (to_list (iter_courses a) s) as [[e0|items] s1].
    + destruct (caught e0); [apply IH|done].
    + rewrite IH.
      destruct (aggregate skip caught reg1 s1) as [[e1|cs1] s2]; [done|].
      destruct (aggregate skip caught reg2 s2) as [[e2|cs2] s3]; [done|].
      by rewrite app_assoc.
Qed.

(** X8: running all the sources of two registries put one after the other
    is running the first, then the second from the state the first left,
    and joining the two lists; an exception that escapes the first run
    keeps the second from starting. *)
Theorem run_all_app (reg1 reg2 : Registry) (s : State) :
  run_all (reg1 ++ reg2) s =
  match run_all reg1 s with
  | (inr cs1, s1) =>
      match run_all reg2 s1 with
      | (inr cs2, s2) => (inr (cs1 ++ cs2), s2)
      | (inl e, s2) => (inl e, s2)
      end
  | (inl e, s1) => (inl e, s1)
  end.
Proof.
  rewrite !run_all_fold, aggregate_app.
  destruct (aggregate _ _ reg1 s) as [[e|cs1] s1]; [done|].
  by rewrite run_all_fold.
Qed.

Lemma run_all_holds_back_Exceptions_witness :
  is_Exception KeyboardInterrupt = false.
Proof.
  apply (run_all_holds_back_Exceptions
           [("interrupted", MoreExamples.interrupted_adapter)]
           initial_state KeyboardInterrupt initial_state).
  reflexivity.
Defined.

(** ** Paths *)


Lemma dropwhile_all (f : ascii → bool) (l : list ascii) :
  forallb f l = true → os.dropwhile f l = [].
Proof.
  induction l as [|c l IH]; simpl; [done|].
  intros [-> Hl]%andb_true_iff. auto.
Qed.

Lemma forallb_rev (f : ascii → bool) (l : list ascii) :
  forallb f (rev l) = forallb f l.
Proof.
  apply eq_true_iff_eq. rewrite !forallb_forall.
  split; intros Hf c Hc; apply Hf; by apply in_rev in Hc || apply in_rev.
Qed.

(** A name without a slash has no directory part. *)
Lemma dirname_no_slash (l : list ascii) :
  forallb (λ c, negb (os.is_slash c)) l = true → os.dirname_chars l = [].
Proof.
  intros Hl. unfold os.dirname_chars.
  rewrite dropwhile_all; [done|]. by rewrite forallb_rev.
Qed.










(** ** The sink, in full *)

Lemma saved_same (p content : string) (s : State) :
  files (fs s) !! p = Some content → saved p content s = s.
Proof.
  destruct s as [rq sl wa so [ds fl]]. unfold saved, os.set_fs. simpl.
  intros Hp. by rewrite insert_id.
Qed.

Lemma saved_saved (p c1 c2 : string) (s : State) :
  saved p c2 (saved p c1 s) = saved p c2 s.
Proof. unfold saved, os.set_fs. simpl. by rewrite insert_insert_eq. Qed.

Lemma string_app_empty (a : string) : a +:+ "" = a.
Proof.
  induction a as [|x a IH]; [done|].
  change (String x (a +:+ "") = String x a). by rewrite IH.
Qed.

Lemma file_write_saved (p data pre : string) (s : State) :
  files (fs s) !! p = Some pre →
  file_write p data s = (inr tt, saved p (pre +:+ data) s).
Proof. intros Hp. unfold file_write, saved. by rewrite Hp. Qed.

Lemma write_rows_saved (p : string) (rows : list Course) : ∀ (s : State) (pre : string),
  files (fs s) !! p = Some pre →
  for_M rows (λ c,
    rowdict ← for_M_with FIELDS (λ k (d : gmap string csv.pyval),
                 v ← getattr c k; mret (<[k := v]> d)) ∅;
    DictWriter_writerow p FIELDS rowdict) s
  = (inr tt, saved p (pre +:+ table_text (course_row <$> rows)) s).
Proof.
  induction rows as [|c rows IH]; intros s pre Hpre.
  - unfold table_text. simpl. by rewrite string_app_empty, saved_same.
  - cbn [for_M]. unfold mbind at 1, M_bind at 1, bind at 1.
    unfold mbind at 1, M_bind at 1, bind at 1.
    rewrite course_dict_built, writerow_course.
    rewrite (file_write_saved _ _ pre) by done.
    rewrite (IH _ (pre +:+ csv.writerow_text (course_row c))).
    + rewrite saved_saved. do 2 f_equal.
      rewrite fmap_cons. unfold table_text. simpl.
      by rewrite string_app_assoc.
    + unfold saved. simpl. apply lookup_insert_eq.
Qed.

(** What [write_csv] does, case by case: the directory part is empty; a
    file stands where a directory is needed; the path is empty, a
    directory, or its directory cannot be entered; or the table is
    written. *)
Lemma write_csv_eq (rows : list Course) (p : string) (s : State) :
  write_csv rows p s =
  let d := os.path_dirname p in
  if String.eqb d "" then (inl (FileNotFoundError d), s)
  else if existsb (λ x, bool_decide (is_Some (files (fs s) !! x))) (os.with_parents d)
  then (inl (FileExistsError d), s)
  else if String.eqb p "" then (inl (FileNotFoundError p), made p s)
  else if os.isdir (fs (made p s)) p then (inl (IsADirectoryError p), made p s)
  else if negb (os.isdir (fs (made p s)) d) then (inl (FileNotFoundError p), made p s)
  else (inr tt, saved p (table_text (FIELDS :: (course_row <$> rows))) (made p s)).
Proof.
  unfold write_csv. cbv zeta.
  unfold mbind at 1, M_bind at 1, bind at 1. unfold os.makedirs.
  destruct (String.eqb (os.path_dirname p) "") eqn:Hd; [done|].
  destruct (existsb _ _); [done|].
  rewrite andb_false_r. fold (made p s).
  unfold mbind at 1, M_bind at 1, bind at 1. unfold open_w.
  destruct (String.eqb p ""); [done|].
  destruct (os.isdir (fs (made p s)) p); [done|].
  rewrite Hd. cbn [negb andb].
  destruct (os.isdir (fs (made p s)) (os.path_dirname p)); cbn [negb]; [|done].
  fold (saved p "" (made p s)).
  unfold mbind at 1, M_bind at 1, bind at 1.
  rewrite writeheader_FIELDS.
  rewrite (file_write_saved _ _ "") by (unfold saved; simpl; apply lookup_insert_eq).
  rewrite (write_rows_saved _ _ _ ("" +:+ csv.writerow_text FIELDS))
    by (unfold saved; simpl; apply lookup_insert_eq).
  by rewrite !saved_saved.
Qed.

Lemma path_dirname_bare (p : string) : bare p → os.path_dirname p = "".
Proof.
  intros Hp. unfold os.path_dirname. by rewrite dirname_no_slash.
Qed.

(** X9: for an output path without a slash [write_csv] raises
    [FileNotFoundError] out of [os.makedirs], whatever the rows, and
    leaves the state as it was: no file is created or changed. *)
Theorem write_csv_bare_path_fails (rows : list Course) (p : string) (s : State) :
  bare p → write_csv rows p s = (inl (FileNotFoundError ""), s).
Proof.
  intros Hp. rewrite write_csv_eq. cbv zeta.
  by rewrite path_dirname_bare.
Qed.


(** X11: [write_csv] touches nothing but the file system, never removes a
    directory, and changes no file other than the one at the output path,
    whether it returns or raises. *)
Theorem write_csv_frame (rows : list Course) (p : string) (s : State) :
  let s' := (write_csv rows p s).2 in
  requests s' = requests s ∧ sleeps s' = sleeps s ∧
  warnings s' = warnings s ∧ stdout s' = stdout s ∧
  dirs (fs s) ⊆ dirs (fs s') ∧
  ∀ q, q ≠ p → files (fs s') !! q = files (fs s) !! q.
Proof.
  rewrite write_csv_eq. cbv zeta.
  repeat match goal with
         | |- context [if ?b then _ else _] => destruct b
         end; simpl; repeat split; try done; try set_solver.
  intros q Hq. by rewrite lookup_insert_ne.
Qed.

Lemma write_csv_bare_path_fails_witness :
  write_csv Examples.three_courses "out.csv" initial_state
  = (inl (FileNotFoundError ""), initial_state).
Proof. apply write_csv_bare_path_fails. reflexivity. Defined.


(** ** The command line, in full *)

Lemma listing_loop (reg : Registry) (s : State) :
  for_M reg (λ '(k, a),
    if String.eqb k "base" then mret tt
    else print ("  " +:+ ljust20 k +:+ " -> " +:+ display_name a)) s
  = (inr tt, mkState (requests s) (sleeps s) (warnings s)
                     (stdout s ++ site_lines reg) (fs s)).
Proof.
  revert s. induction reg as [|[k a] reg IH]; intros s.
  - destruct s. simpl. by rewrite app_nil_r.
  - cbn [for_M]. unfold mbind, M_bind, bind. unfold site_lines.
    destruct (String.eqb_spec k "base") as [->|Hne].
    + rewrite filter_cons_False by (simpl; tauto).
      unfold mret, M_ret, ret. apply IH.
    + rewrite filter_cons_True by done.
      unfold print. rewrite IH. simpl. by rewrite <- app_assoc.
Qed.

(** X12: with [--list-sites], whatever the other flags, [main] prints the
    heading and one line per entry whose key is not [base], in
    registration order, and returns normally without a request and without
    touching a file. *)
Theorem main_list_sites (reg : Registry) (args : Args) (s : State) :
  list_sites args = true →
  main reg args s
  = (inr tt, mkState (requests s) (sleeps s) (warnings s)
                     (stdout s ++ "Available site keys:" :: site_lines reg) (fs s)).
Proof.
  intros Hl. unfold main. rewrite Hl.
  unfold mbind, M_bind, bind, print. rewrite listing_loop. simpl.
  by rewrite <- app_assoc.
Qed.

(** X13: an empty [--site] value counts as no [--site] at all: with
    [--all] every source is run, and alone it is the usage error. *)
Theorem main_empty_site_is_no_site (reg : Registry) (al : bool) (o : string)
    (l : bool) (s : State) :
  main reg (mkArgs (Some "") al o l) s = main reg (mkArgs None al o l) s.
Proof. reflexivity. Qed.

Lemma write_csv_returns (rows : list Course) (p : string) (s s' : State) :
  write_csv rows p s = (inr tt, s') →
  files (fs s') !! p = Some (table_text (FIELDS :: (course_row <$> rows))).
Proof.
  rewrite write_csv_eq. cbv zeta.
  repeat match goal with
         | |- context [if ?b then _ else _] => destruct b; [discriminate|]
         end.
  intros [= <-]. simpl. apply lookup_insert_eq.
Qed.

(** X14: when exactly one of [--site] and [--all] selects a run, that run
    returns the Courses [cs] and the sink returns, [main] prints the count
    and returns normally, and reading the output file back gives the
    header and one row per Course of [cs], in order. *)
Theorem main_writes_what_it_ran (reg : Registry) (args : Args)
    (s : State) (cs : list Course) (s1 s2 : State) :
  list_sites args = false →
  truthy (site args) = negb (all args) →
  selected_run reg args s = (inr cs, s1) →
  write_csv cs (out args) s1 = (inr tt, s2) →
  let line := "Wrote " +:+ pretty (length cs) +:+ " rows -> " +:+ out args in
  main reg args s = (inr tt, printed line s2) ∧
  read_csv (out args) (printed line s2) = Some (inr (FIELDS :: (course_row <$> cs))).
Proof.
  intros Hl Hx Hrun Hwrite line. split.
  - unfold main. rewrite Hl, Hx.
    unfold selected_run in Hrun. rewrite Hx in Hrun.
    destruct (all args); cbn [negb andb] in *;
      unfold mbind, M_bind, bind; rewrite Hrun, Hwrite; done.
  - unfold read_csv. simpl. rewrite (write_csv_returns _ _ _ _ Hwrite).
    simpl. by rewrite csv_round_trip.
Qed.

(** X15: with [--site key] alone, an exception that leaves the adapter's
    [iter_courses], derived from [Exception] or not, leaves [main] as it
    is: nothing is logged or printed and the sink is not reached. *)
Theorem main_site_failure_surfaces (reg : Registry) (args : Args) (k : string)
    (a : Adapter) (s : State) (e : exn) (s1 : State) :
  list_sites args = false → all args = false →
  site args = Some k → k ≠ "" →
  dict_get k reg = Some a →
  to_list (iter_courses a) s = (inl e, s1) →
  main reg args s = (inl e, s1).
Proof.
  intros Hl Ha Hs Hk Hget Hrun. unfold main. rewrite Hl, Ha, Hs.
  destruct k as [|c k]; [done|]. simpl.
  unfold run_one, mbind, M_bind, bind. rewrite Hget.
  unfold mbind, M_bind, bind. by rewrite Hrun.
Qed.

Lemma main_list_sites_witness :
  main (@ADAPTERS Examples.down)
       (mkArgs (Some "alx") true "courses.csv" true) initial_state
  = (inr tt, mkState [] [] []
       ("Available site keys:" :: site_lines (@ADAPTERS Examples.down))
       (mkFS ∅ ∅)).
Proof. apply (main_list_sites (@ADAPTERS Examples.down)). reflexivity. Defined.

Ltac run_left :=
  match goal with
  | |- ?l = _ => let v := eval vm_compute in l in change l with v; reflexivity
  end.

Lemma main_writes_what_it_ran_witness :
  let base := "https://smartethio.com" in
  let args := mkArgs (Some "smartethio") false "data/courses.csv" false in
  ∃ cs s2,
    main (@ADAPTERS (Examples.up base)) args initial_state
      = (inr tt, printed ("Wrote " +:+ pretty (length cs) +:+ " rows -> data/courses.csv") s2) ∧
    read_csv "data/courses.csv"
      (printed ("Wrote " +:+ pretty (length cs) +:+ " rows -> data/courses.csv") s2)
      = Some (inr (FIELDS :: (course_row <$> cs))) ∧
    length cs = 2%nat.
Proof.
  intros base args.
  edestruct (main_writes_what_it_ran (@ADAPTERS (Examples.up base)) args
               initial_state) as [Hmain Hread];
    [reflexivity | reflexivity | run_left | run_left |].
  eexists _, _. split; [exact Hmain|]. split; [exact Hread|reflexivity].
Defined.

Lemma main_site_failure_surfaces_witness :
  main (@ADAPTERS Examples.down)
       (mkArgs (Some "learninggov") false "data/courses.csv" false) initial_state
  = (inl (RetryError (ScrapeError "GET https://learning.gov.et -> 500")),
     after_three "https://learning.gov.et" initial_state).
Proof.
  apply (main_site_failure_surfaces (@ADAPTERS Examples.down) _ "learninggov"
           (@LearningGovAdapter Examples.down));
    first [ discriminate | vm_compute; reflexivity ].
Defined.

(** ** What the adapters put into a Course *)

Section CourseShape.
Context `{Collaborators}.

(** Every registered adapter builds its Courses in one way: the resolved
    link, which is not empty, is both [course_id] and [url], and of the
    optional fields only [subject], [provider] and [language] are ever
    given. *)
Lemma registered_courses_built (P : Course → Prop) :
  (∀ href title subj prov lang, href ≠ "" →
     P (mkCourse href title href None None None None None None None None
                 subj prov lang)) →
  Forall (λ entry : string * Adapter, all_yielded P (iter_courses entry.2)) ADAPTERS.
Proof.
  intros HP.
  assert (∀ base keep mk a,
            (∀ href title, href ≠ "" → P (mk href title)) →
            all_yielded P (anchor_body base keep mk a)) as Hanchor.
  { intros. by apply all_yielded_anchor_body. }
  rewrite ADAPTERS_eq.
  repeat (apply Forall_cons; split; [cbn [snd]|]); [..|constructor].
  - unfold LearningGovAdapter; cbn [iter_courses].
    apply all_yielded_bind; [apply all_yielded_call|]. intros page.
    destruct (sorted_links _) as [e|hrefs]; [apply all_yielded_call|].
    apply all_yielded_for_each. unfold LearningGov_visit.
    intros [[|c href]|]; try apply all_yielded_ret.
    destruct (re_search_I _ _); [|apply all_yielded_ret].
    apply all_yielded_bind; [apply all_yielded_attempt|].
    intros [e|csoup]; [apply all_yielded_ret|].
    apply all_yielded_yield, HP. by apply resolve_nonempty.
  - unfold LearnEthiopiaAdapter; cbn [iter_courses].
    apply all_yielded_bind; [|intros; apply all_yielded_ret].
    apply all_yielded_for_each_with. intros u seen.
    apply all_yielded_bind; [apply all_yielded_attempt|].
    intros [e|page]; [apply all_yielded_ret|].
    apply all_yielded_for_each_with. intros a seen'.
    destruct (tag_href a) as [[|c href]|]; try apply all_yielded_ret.
    destruct (_ || _); [apply all_yielded_ret|].
    destruct (re_search_I _ _); [|apply all_yielded_ret].
    apply all_yielded_bind; [apply all_yielded_attempt|]. intros r.
    apply all_yielded_bind; [|intros; apply all_yielded_ret].
    apply all_yielded_yield, HP. by apply resolve_nonempty.
  - apply all_yielded_scan_base_page. intros; by apply HP.
  - apply all_yielded_scan_base_page. intros; by apply HP.
  - apply all_yielded_scan_base_page. intros; by apply HP.
  - apply all_yielded_scan_base_page. intros; by apply HP.
  - apply all_yielded_scan_base_page. intros; by apply HP.
  - apply all_yielded_scan_base_page. intros; by apply HP.
  - unfold ELearnETHAdapter; cbn [iter_courses].
    apply all_yielded_for_each. intros u.
    apply all_yielded_bind; [apply all_yielded_attempt|].
    intros [e|page]; [apply all_yielded_ret|].
    apply all_yielded_for_each. intros a.
    apply Hanchor. intros; by apply HP.
  - apply all_yielded_scan_base_page. intros; by apply HP.
  - apply all_yielded_scan_base_page. intros; by apply HP.
  - apply all_yielded_scan_base_page. intros; by apply HP.
  - apply all_yielded_scan_base_page. intros; by apply HP.
  - apply all_yielded_scan_base_page. intros; by apply HP.
  - apply all_yielded_scan_base_page. intros; by apply HP.
  - apply all_yielded_scan_base_page. intros; by apply HP.
  - apply all_yielded_scan_base_page. intros; by apply HP.
  - apply all_yielded_ret.
  - apply all_yielded_ret.
  - apply all_yielded_ret.
  - apply all_yielded_ret.
  - apply all_yielded_ret.
Qed.

(** X16: in every Course yielded by a registered adapter the identifier
    is the URL itself, and the paid flag, the price, the three counts, the
    level, the duration and the publication time are absent. *)
Theorem yielded_id_is_url_and_metadata_absent :
  Forall (λ entry : string * Adapter,
            ∀ s, Forall (λ r, course_id r = url r ∧
                              is_paid r = None ∧ price r = None ∧
                              num_subscribers r = None ∧ num_reviews r = None ∧
                              num_lectures r = None ∧ level r = None ∧
                              content_duration r = None ∧
                              published_timestamp r = None)
                        (yielded (iter_courses entry.2) s))
         ADAPTERS.
Proof. apply registered_courses_built. intros. by repeat split. Qed.

Lemma str_or_nonempty (a b : string) : b ≠ "" → str_or a b ≠ "".
Proof. by destruct a. Qed.

(** What passes the filter of an anchor scan. *)
Lemma anchor_body_kept P base keep mk a :
  (∀ href title, href ≠ "" → title ≠ "" → keep href = true → P (mk href title)) →
  all_yielded P (anchor_body base keep mk a).
Proof.
  intros Hmk. unfold anchor_body.
  destruct (tag_href a) as [[|c href]|]; try apply all_yielded_ret.
  destruct (keep _) eqn:Hk; [|apply all_yielded_ret].
  assert (resolve base (String c href) ≠ "") by by apply resolve_nonempty.
  apply all_yielded_yield, Hmk; [done| |done]. by apply str_or_nonempty.
Qed.

Lemma scan_kept P guarded base keep mk :
  (∀ href title, href ≠ "" → title ≠ "" → keep href = true → P (mk href title)) →
  all_yielded P (scan_base_page guarded base keep mk).
Proof.
  intros Hmk. unfold scan_base_page. destruct guarded.
  - apply all_yielded_bind; [apply all_yielded_attempt|].
    intros [e|page]; [apply all_yielded_ret|].
    apply all_yielded_for_each. intros a. by apply anchor_body_kept.
  - apply all_yielded_bind; [apply all_yielded_call|].
    intros page.
    apply all_yielded_for_each. intros a. by apply anchor_body_kept.
Qed.

(** X17: the fourteen adapters that scan their base page yield only links
    of their own site that match their own pattern: the URL of every
    Course contains the adapter's [base_url] and is matched by the
    adapter's keyword pattern. *)
Theorem scanned_links_are_on_site_and_match :
  Forall (λ ap : Adapter * string,
            ∃ base, base_url ap.1 = Some base ∧
              ∀ s, Forall (λ r, str_in base (url r) = true ∧
                                re_search_I ap.2 (url r) = true)
                          (yielded (iter_courses ap.1) s))
         scanning_adapters.
Proof.
  unfold scanning_adapters.
  repeat (apply Forall_cons; split;
          [eexists; split; [reflexivity|]; cbn [fst snd iter_courses];
           apply scan_kept; intros href title _ _ Hk; cbn [url];
           apply andb_true_iff in Hk as [? ?]; by split|]).
  constructor.
Qed.

(** X18: the fourteen adapters that scan their base page, and eLearn
    Ethiopia, never yield a Course without a title: the title is the text
    of the anchor or, when that is empty, the link. *)
Theorem scanned_titles_are_nonempty :
  Forall (λ a : Adapter,
            ∀ s, Forall (λ r, course_title r ≠ "") (yielded (iter_courses a) s))
         (ELearnETHAdapter :: scanning_adapters.*1).
Proof.
  apply Forall_cons; split.
  - unfold ELearnETHAdapter; cbn [iter_courses].
    apply all_yielded_for_each. intros u.
    apply all_yielded_bind; [apply all_yielded_attempt|].
    intros [e|page]; [apply all_yielded_ret|].
    apply all_yielded_for_each. intros a.
    apply anchor_body_kept. by intros.
  - unfold scanning_adapters. rewrite !fmap_cons, fmap_nil. cbn [fst].
    repeat (apply Forall_cons; split;
            [cbn [iter_courses]; apply scan_kept; by intros|]).
    constructor.
Qed.

(** A scan of anchors calls nothing: the state stays as it is. *)
Lemma anchor_loop_pure base keep mk (anchors : list Tag) (s : State) :
  (for_each anchors (anchor_body base keep mk) s).2 = s ∧
  ending (for_each anchors (anchor_body base keep mk)) s = inr tt.
Proof.
  unfold ending. induction anchors as [|a anchors [IH1 IH2]]; [done|].
  cbn [for_each]. unfold mbind, G_bind, gbind.
  assert (∃ ys, anchor_body base keep mk a s = ((ys, inr tt), s)) as [ys ->].
  { unfold anchor_body. destruct (tag_href a) as [[|c href]|]; try by eexists.
    destruct (keep _); by eexists. }
  destruct (for_each anchors _ s) as [[ys' r] s2]. simpl in *. by subst.
Qed.

(** X19: an adapter that scans its base page requests nothing but that
    page, one to three times, and follows none of the links it finds. *)
Theorem scanning_adapters_request_base_only :
  Forall (λ ap : Adapter * string,
            ∃ base, base_url ap.1 = Some base ∧
              ∀ s, ∃ n, (1 ≤ n ≤ 3)%nat ∧
                requests (iter_courses ap.1 s).2 = requests s ++ replicate n base)
         scanning_adapters.
Proof.
  assert (∀ guarded base keep mk s, ∃ n, (1 ≤ n ≤ 3)%nat ∧
            requests (scan_base_page guarded base keep mk s).2
            = requests s ++ replicate n base) as Hscan.
  { intros guarded base keep mk s.
    destruct (attempts_trace tenacity.retry_if_exception_type
                (tenacity.wait_exponential 1 1 8) base 2 1 s)
      as (n & Hn & Hr & _).
    exists n. split; [lia|]. rewrite <- Hr. f_equal.
    change (tenacity.attempts tenacity.retry_if_exception_type
              (tenacity.wait_exponential 1 1 8) 2 1 (get_body base) s)
      with (get base s).
    unfold scan_base_page, attempt, call, try_except, soup.
    unfold mbind, G_bind, gbind, mbind, M_bind, bind, mret, G_ret, gret, M_ret, ret.
    destruct guarded; destruct (get base s) as [[e|resp] s1]; simpl.
    - by destruct (is_Exception e).
    - pose proof (anchor_loop_pure base keep mk (soup_select (text resp) "a[href]") s1)
        as [Hs _].
      by destruct (for_each _ _ s1) as [[ys r] s2].
    - done.
    - pose proof (anchor_loop_pure base keep mk (soup_select (text resp) "a[href]") s1)
        as [Hs _].
      by destruct (for_each _ _ s1) as [[ys r] s2]. }
  unfold scanning_adapters.
  repeat (apply Forall_cons; split;
          [eexists; split; [reflexivity|]; cbn [fst iter_courses]; apply Hscan|]).
  constructor.
Qed.

End CourseShape.

(** ** LearnEthiopia.com yields each link once *)

Section LearnEthiopiaOnce.
Context `{Collaborators}.

Lemma LearnEthiopia_iter_courses_eq :
  iter_courses LearnEthiopiaAdapter =
  (for_each_with ["https://learnethiopia.com"; "https://learnethiopia.com/courses"]
     LearnEthiopia_page ∅;;
   mret tt).
Proof. reflexivity. Qed.

Lemma adds_fresh_ret (seen : gset string) : adds_fresh seen (mret seen).
Proof.
  intros s. unfold yielded, ending. simpl.
  repeat split; [constructor|by intros ? ?%elem_of_nil|].
  intros seen' [= <-]. set_solver.
Qed.

Lemma adds_fresh_anchor (a : Tag) (seen : gset string) :
  adds_fresh seen (LearnEthiopia_anchor a seen).
Proof.
  unfold LearnEthiopia_anchor. cbv zeta.
  destruct (tag_href a) as [[|c href]|]; try apply adds_fresh_ret.
  set (h := resolve "https://learnethiopia.com" (String c href)).
  destruct (negb _) eqn:Hin; [apply adds_fresh_ret|]. cbn [orb].
  case_bool_decide as Hseen; [apply adds_fresh_ret|].
  destruct (re_search_I _ _); [|apply adds_fresh_ret].
  intros s. unfold yielded, ending, mbind, G_bind, gbind, attempt, call.
  destruct (try_except _ _ s) as [[e|r] s1]; simpl.
  - repeat split; [constructor|by intros ? ?%elem_of_nil|done].
  - repeat split.
    + apply NoDup_singleton.
    + by intros u ->%list_elem_of_singleton.
    + intros seen' [= <-]. set_solver.
Qed.

Lemma adds_fresh_loop {X} (xs : list X) (body : X → gset string → G (gset string)) :
  (∀ x seen, adds_fresh seen (body x seen)) →
  ∀ seen, adds_fresh seen (for_each_with xs body seen).
Proof.
  intros Hbody. induction xs as [|x xs IH]; intros seen; [apply adds_fresh_ret|].
  intros s. cbn [for_each_with].
  destruct (Hbody x seen s) as (Hnd1 & Hnew1 & Hseen1).
  unfold yielded, ending, mbind, G_bind, gbind in *.
  destruct (body x seen s) as [[ys1 [e|seen1]] s1]; simpl in *; [done|].
  specialize (Hseen1 seen1 eq_refl). subst seen1.
  destruct (IH (list_to_set (url <$> ys1) ∪ seen) s1) as (Hnd2 & Hnew2 & Hseen2).
  unfold yielded, ending in Hnd2, Hnew2, Hseen2.
  destruct (for_each_with xs body _ s1) as [[ys2 r] s2]; simpl in *.
  rewrite fmap_app. split; [|split].
  - apply NoDup_app. split; [done|]. split; [|done].
    intros u Hu1 Hu2. apply Hnew2 in Hu2. set_solver.
  - intros u [Hu|Hu]%elem_of_app; [by apply Hnew1|].
    apply Hnew2 in Hu. set_solver.
  - intros seen' Hr. rewrite (Hseen2 seen' Hr). set_solver.
Qed.

Lemma adds_fresh_page (u : string) (seen : gset string) :
  adds_fresh seen (LearnEthiopia_page u seen).
Proof.
  intros s. unfold LearnEthiopia_page.
  unfold yielded, ending, mbind, G_bind, gbind, attempt, call.
  destruct (try_except _ _ s) as [[e|[e|page]] s1]; simpl.
  - repeat split; [constructor|by intros ? ?%elem_of_nil|done].
  - repeat split; [constructor|by intros ? ?%elem_of_nil|].
    intros seen' [= <-]. set_solver.
  - pose proof (adds_fresh_loop (soup_select page "a[href]") LearnEthiopia_anchor
                  adds_fresh_anchor seen s1) as Hloop.
    unfold yielded, ending in Hloop.
    by destruct (for_each_with _ _ seen s1) as [[ys r] s2].
Qed.

(** X20: the Courses yielded by [LearnEthiopiaAdapter.iter_courses] have
    pairwise different URLs, across its two catalog pages: a link seen
    once is not yielded again. *)
Theorem LearnEthiopia_urls_are_distinct (s : State) :
  NoDup (url <$> yielded (iter_courses LearnEthiopiaAdapter) s).
Proof.
  rewrite LearnEthiopia_iter_courses_eq, yielded_bind.
  pose proof (adds_fresh_loop
                ["https://learnethiopia.com"; "https://learnethiopia.com/courses"]
                LearnEthiopia_page adds_fresh_page ∅ s) as (Hnd & _).
  unfold yielded in *.
  destruct (for_each_with _ _ ∅ s) as [[ys [e|seen]] s1]; simpl in *; [done|].
  by rewrite app_nil_r.
Qed.

End LearnEthiopiaOnce.

(** ** Which adapters hold their errors back *)

Section Containment.
Context `{Collaborators}.

Lemma contained_ret {A} (a : A) : contained (mret a : G A).
Proof. by intros s e. Qed.

Lemma contained_yield c : contained (yield c).
Proof. by intros s e. Qed.

Lemma contained_attempt {A} (m : M A) : contained (attempt m).
Proof.
  intros s e. unfold ending, attempt, call, try_except, mbind, M_bind, bind.
  destruct (m s) as [[e0|a] s1]; simpl; [|done].
  destruct (is_Exception e0) eqn:He; simpl; [done|]. by intros [= <-].
Qed.

Lemma contained_bind {A B} (g : G A) (k : A → G B) :
  contained g → (∀ a, contained (k a)) → contained (g ≫= k).
Proof.
  intros Hg Hk s e. specialize (Hg s).
  unfold ending, mbind, G_bind, gbind in *.
  destruct (g s) as [[ys [e0|a]] s1]; simpl in *; [by intros [= <-]; apply Hg|].
  specialize (Hk a s1 e). unfold ending in Hk.
  by destruct (k a s1) as [[ys' r] s2].
Qed.

Lemma contained_for_each {X} (xs : list X) (body : X → G unit) :
  (∀ x, contained (body x)) → contained (for_each xs body).
Proof.
  intros Hb. induction xs as [|x xs IH]; simpl; [apply contained_ret|].
  apply contained_bind; auto.
Qed.

Lemma contained_for_each_with {X L} (xs : list X) (body : X → L → G L) l :
  (∀ x l, contained (body x l)) → contained (for_each_with xs body l).
Proof.
  intros Hb. revert l. induction xs as [|x xs IH]; intros l; simpl;
    [apply contained_ret|].
  apply contained_bind; auto.
Qed.

Lemma contained_anchor_body base keep mk a : contained (anchor_body base keep mk a).
Proof.
  unfold anchor_body. destruct (tag_href a) as [[|c href]|]; try apply contained_ret.
  destruct (keep _); [apply contained_yield|apply contained_ret].
Qed.

Lemma contained_guarded_scan base keep mk :
  contained (scan_base_page true base keep mk).
Proof.
  unfold scan_base_page. apply contained_bind; [apply contained_attempt|].
  intros [e|page]; [apply contained_ret|].
  apply contained_for_each. intros a. apply contained_anchor_body.
Qed.

(** X21: from the ten adapters that guard the fetch of their base page,
    from LearnEthiopia.com, from eLearn Ethiopia and from the five
    adapters that return the empty list, no exception derived from
    [Exception] ever escapes [iter_courses], whatever the transport does:
    a failed fetch is swallowed. *)
Theorem guarded_adapters_hold_back_Exceptions :
  Forall (λ a : Adapter,
            ∀ s e, ending (iter_courses a) s = inl e → is_Exception e = false)
         (guarded_adapters ++ [LearnEthiopiaAdapter; ELearnETHAdapter] ++ stub_adapters).
Proof.
  unfold guarded_adapters, stub_adapters. cbn [app].
  repeat (apply Forall_cons; split;
          [cbn [iter_courses];
           first [ apply contained_guarded_scan | apply contained_ret | idtac ]|]);
    [..|constructor].
  - rewrite LearnEthiopia_iter_courses_eq.
    apply contained_bind; [|intros; apply contained_ret].
    apply contained_for_each_with. intros u seen. unfold LearnEthiopia_page.
    apply contained_bind; [apply contained_attempt|].
    intros [e|page]; [apply contained_ret|].
    apply contained_for_each_with. intros a seen'. unfold LearnEthiopia_anchor.
    cbv zeta.
    destruct (tag_href a) as [[|c href]|]; try apply contained_ret.
    destruct (_ || _); [apply contained_ret|].
    destruct (re_search_I _ _); [|apply contained_ret].
    apply contained_bind; [apply contained_attempt|]. intros r.
    apply contained_bind; [apply contained_yield|intros; apply contained_ret].
  - unfold ELearnETHAdapter; cbn [iter_courses].
    apply contained_for_each. intros u.
    apply contained_bind; [apply contained_attempt|].
    intros [e|page]; [apply contained_ret|].
    apply contained_for_each. intros a. apply contained_anchor_body.
Qed.

(** X22: when the base page of one of the ten guarded adapters cannot be
    fetched, its [iter_courses] gives up after the three attempts of [get]
    and ends normally without a Course. *)
Theorem guarded_adapters_swallow_base_failure :
  Forall (λ a : Adapter,
            ∃ base, base_url a = Some base ∧
              ∀ s, unreachable base →
                   iter_courses a s = (([], inr tt), after_three base s))
         guarded_adapters.
Proof.
  unfold guarded_adapters.
  repeat (apply Forall_cons; split;
          [eexists; split; [reflexivity|]; intros s Hu; cbn [iter_courses];
           by apply guarded_scan_empty|]).
  constructor.
Qed.

(** X23: when the base page of Learning.gov.et, EDUHUB, ALX Africa, Kubaya
    Learning or Stafford Global cannot be fetched, [iter_courses] raises
    the [RetryError] of [get] after the three attempts, and no Course is
    yielded. *)
Theorem unguarded_adapters_raise_on_base_failure :
  Forall (λ a : Adapter,
            ∃ base, base_url a = Some base ∧
              ∀ s, unreachable base →
                   ∃ e, iter_courses a s
                        = (([], inl (RetryError e)), after_three base s))
         unguarded_adapters.
Proof.
  unfold unguarded_adapters.
  apply Forall_cons; split.
  { eexists; split; [reflexivity|]. intros s Hu. by apply LearningGov_raises. }
  repeat (apply Forall_cons; split;
          [eexists; split; [reflexivity|]; intros s Hu; cbn [iter_courses];
           by apply unguarded_scan_raises|]).
  constructor.
Qed.

End Containment.

Lemma guarded_adapters_hold_back_Exceptions_witness :
  is_Exception KeyboardInterrupt = false.
Proof.
  apply (Forall_inv (@guarded_adapters_hold_back_Exceptions MoreExamples.interrupting)
           initial_state KeyboardInterrupt).
  vm_compute. reflexivity.
Defined.

Lemma guarded_adapters_swallow_base_failure_witness :
  iter_courses (@SmartEthioAdapter Examples.down) initial_state
  = (([], inr tt), after_three "https://smartethio.com" initial_state).
Proof.
  destruct (Forall_inv (@guarded_adapters_swallow_base_failure Examples.down))
    as (base & Hbase & Hall).
  injection Hbase as <-. apply Hall.
  intros history. unfold attempt_fails. simpl. lia.
Defined.

Lemma unguarded_adapters_raise_on_base_failure_witness :
  ∃ e, iter_courses (@LearningGovAdapter Examples.down) initial_state
       = (([], inl (RetryError e)), after_three "https://learning.gov.et" initial_state).
Proof.
  destruct (Forall_inv (@unguarded_adapters_raise_on_base_failure Examples.down))
    as (base & Hbase & Hall).
  injection Hbase as <-. apply Hall.
  intros history. unfold attempt_fails. simpl. lia.
Defined.

(** ** The Selenium helper *)

Section SeleniumHelper.
Import selenium.
Context `{Driver}.

(** X24: without Selenium the helper raises [ScrapeError] before anything
    is started; and once Chrome has started, the helper quits the driver
    exactly once, as the last thing it does, whether the page loads, the
    wait fails or reading the source raises. *)
Theorem selenium_html_always_quits (u : string) (wait_css : option string)
    (sleep : Q) (h : list Event) :
  (webdriver_present = false →
   selenium_html u wait_css sleep h
   = (inl (ScrapeError "Selenium not installed. pip install selenium webdriver-manager"),
      h)) ∧
  (webdriver_present = true → Chrome_raises h = None →
   ∃ evs, (selenium_html u wait_css sleep h).2 = h ++ Chrome_started :: evs ∧
          last evs = Some driver_quit ∧
          length (List.filter is_quit evs) = 1%nat).
Proof.
  split.
  - intros Hp. unfold selenium_html. by rewrite Hp.
  - intros Hp Hc. unfold selenium_html. rewrite Hp. cbn [negb].
    unfold try_finally, time_sleep, read_source, act, mbind, B_bind, bbind,
      bret, braise.
    rewrite Hc.
    repeat match goal with
           | |- context [match ?x with _ => _ end] =>
               match x with
               | context [match _ with _ => _ end] => fail 1
               | _ => destruct x eqn:?
               end
           end;
      simpl; rewrite <- ?app_assoc; simpl;
      (eexists; split; [reflexivity|]; split; reflexivity).
Qed.

End SeleniumHelper.

Lemma selenium_html_always_quits_witness :
  ∃ evs,
    (@selenium.selenium_html MoreExamples.element_missing
       "https://x.example" (Some ".course") 3%Q []).2
    = [] ++ selenium.Chrome_started :: evs ∧
    last evs = Some selenium.driver_quit ∧
    length (List.filter selenium.is_quit evs) = 1%nat.
Proof.
  apply (proj2 (@selenium_html_always_quits MoreExamples.element_missing
                  "https://x.example" (Some ".course") 3%Q [])); reflexivity.
Defined.

Lemma registered_invariant_witness :
  key (@KubayaAdapter Examples.down) = "kubaya".
Proof.
  apply (proj1 (proj2 (registered_invariant
                         [@SmartEthioAdapter Examples.down;
                          @KubayaAdapter Examples.down]))).
  apply list_elem_of_further, list_elem_of_here.
Defined.
